(** * DevSandbox: the sandbox store and the mock request simulator

    A shallow embedding of the two pieces of [components/SandboxView]
    that carry decision logic:

    - the [SandboxProvider] store (environments, API keys, webhooks and
      log entries, with the cascading [deleteEnvironment] and the log
      operations [addLog] and [refreshLogs]);
    - [handleSendRequest] of the [APIRequestTester], which classifies a
      simulated call against [MOCK_API_ENDPOINTS] and the key collection.

    Conventions of the embedding.
    - A JavaScript [number] that the code only uses as an integer is a
      [Z]; one that can be fractional is a [Q] (idealised: no rounding
      of doubles), except in [generateMockMetrics], whose numbers are
      rounded to doubles: there the rounding decides how many turns
      the loop makes.
    - [Math.random], [Date.now] and [performance.now] are read from
      tapes held in a [World]; a computation that calls them lives in the
      state monad [Sim].
    - A time stamp is kept as the instant it denotes, in milliseconds
      since the epoch: the code only builds it with [toISOString] and
      reads it back with [new Date(...).getTime()].
    - Built-ins whose result is text ([JSON.stringify],
      [String.prototype.toLowerCase], [Number.prototype.toString(36)])
      are parameters of the development. *)

From Stdlib Require Import List String Ascii Bool ZArith QArith Qround Lia.
From Stdlib Require Import Sorted Permutation DecimalString Qminmax Lqa.
Import ListNotations.

Local Open Scope string_scope.
Local Open Scope Z_scope.

Set Implicit Arguments.

(** ** Global interfaces *)

(** A JSON value, as handed to [JSON.stringify]. *)
#[local] Unset Elimination Schemes.
Inductive Json : Type :=
| JNull
| JBool (b : bool)
| JNum (q : Q)
| JStr (s : string)
| JArr (items : list Json)
| JObj (fields : list (string * Json)).
#[local] Set Elimination Schemes.

Module Env.

Inductive Status := Active | Stopped | Archived | Provisioning.

Record Config := mkConfig {
  rateLimit : Z;
  dataRetentionDays : Z;
  loggingEnabled : bool;
  publicAccess : bool }.

Record t := mk {
  id : string;
  name : string;
  description : string;
  status : Status;
  apiKeyCount : Z;
  webhookCount : Z;
  createdAt : string;
  lastActivity : string;
  ownerId : string;
  region : string;
  config : Config }.

End Env.

Module Key.

Inductive Status := Active | Revoked | Expired.

Record t := mk {
  id : string;
  environmentId : string;
  name : string;
  key : string;
  status : Status;
  permissions : list string;
  createdAt : string;
  expiresAt : option string;
  lastUsed : string;
  rateLimitOverride : option Z }.

End Key.

Module Hook.

Inductive Status := Active | Paused | Failed.

Record t := mk {
  id : string;
  environmentId : string;
  name : string;
  url : string;
  secret : string;
  events : list string;
  status : Status;
  createdAt : string;
  lastTriggered : string;
  retriesEnabled : bool;
  maxRetries : Z }.

End Hook.

Module Log.

Inductive Level := INFO | WARN | ERROR | DEBUG.
Inductive Source := API | Webhook | System | Auth.

Definition levelName (l : Level) : string :=
  match l with INFO => "INFO" | WARN => "WARN" | ERROR => "ERROR" | DEBUG => "DEBUG" end.

Definition sourceName (s : Source) : string :=
  match s with API => "API" | Webhook => "Webhook" | System => "System" | Auth => "Auth" end.

Record t := mk {
  id : string;
  environmentId : string;
  timestamp : Z;
  level : Level;
  source : Source;
  message : string;
  details : option Json;
  requestId : option string;
  statusCode : option Z;
  latencyMs : option Z }.

End Log.

Module Endpoint.

Inductive Method := GET | POST | PUT | DELETE | PATCH.

Definition methodName (m : Method) : string :=
  match m with
  | GET => "GET" | POST => "POST" | PUT => "PUT" | DELETE => "DELETE" | PATCH => "PATCH"
  end.

Definition method_eqb (a b : Method) : bool :=
  match a, b with
  | GET, GET | POST, POST | PUT, PUT | DELETE, DELETE | PATCH, PATCH => true
  | _, _ => false
  end.

Record t := mk {
  id : string;
  method : Method;
  path : string;
  description : string;
  requestSchema : option Json;
  responseSchema : option Json;
  tags : list string;
  isAuthenticated : bool }.

End Endpoint.

(** ** The outside world: random numbers and clocks *)

Record World := mkWorld {
  random_tape : nat -> Q;      (* successive results of Math.random() *)
  random_pos : nat;
  date_tape : nat -> Z;        (* successive results of Date.now() *)
  date_pos : nat;
  perf_tape : nat -> Q;        (* successive results of performance.now() *)
  perf_pos : nat;
  timers : list Z              (* delays handed to setTimeout, newest first *)
}.

Definition Sim (A : Type) : Type := World -> A * World.

Definition ret {A} (a : A) : Sim A := fun w => (a, w).

Definition bind {A B} (c : Sim A) (k : A -> Sim B) : Sim B :=
  fun w => let (a, w') := c w in k a w'.

Declare Scope sim_scope.
Delimit Scope sim_scope with sim.
Notation "x <- c ;; k" := (bind c (fun x => k))
  (at level 61, c at next level, right associativity) : sim_scope.
Local Open Scope sim_scope.

Definition Math_random : Sim Q := fun w =>
  (random_tape w (random_pos w),
   mkWorld (random_tape w) (S (random_pos w)) (date_tape w) (date_pos w)
           (perf_tape w) (perf_pos w) (timers w)).

Definition Date_now : Sim Z := fun w =>
  (date_tape w (date_pos w),
   mkWorld (random_tape w) (random_pos w) (date_tape w) (S (date_pos w))
           (perf_tape w) (perf_pos w) (timers w)).

Definition performance_now : Sim Q := fun w =>
  (perf_tape w (perf_pos w),
   mkWorld (random_tape w) (random_pos w) (date_tape w) (date_pos w)
           (perf_tape w) (S (perf_pos w)) (timers w)).

(** [await new Promise(resolve => setTimeout(resolve, ms))]: the handler
    resumes after the timer; the requested delay is recorded. *)
Definition setTimeout_await (ms : Z) : Sim unit := fun w =>
  (tt,
   mkWorld (random_tape w) (random_pos w) (date_tape w) (date_pos w)
           (perf_tape w) (perf_pos w) (ms :: timers w)).

(** Every value of the random tape lies in [0, 1), as [Math.random]
    promises. *)
Definition fair (w : World) : Prop :=
  forall i, (0 <= random_tape w i)%Q /\ (random_tape w i < 1)%Q.

(** ** Mock data generators *)

(** [Math.floor(r * (max - min + 1)) + min] for a drawn [r]. *)
Definition randomInt_of (min max : Z) (r : Q) : Z :=
  Qfloor (r * inject_Z (max - min + 1)) + min.

Definition getRandomInt (min max : Z) : Sim Z :=
  r <- Math_random ;; ret (randomInt_of min max r).

(** [arr[Math.floor(r * arr.length)]]; [undef] stands for the
    [undefined] an index outside the array yields. *)
Definition randomItem_of {T} (undef : T) (arr : list T) (r : Q) : T :=
  let i := Qfloor (r * inject_Z (Z.of_nat (List.length arr))) in
  if i <? 0 then undef else nth (Z.to_nat i) arr undef.

Definition getRandomItem {T} (undef : T) (arr : list T) : Sim T :=
  r <- Math_random ;; ret (randomItem_of undef arr r).

(** [x.toFixed(2)] read back with [parseFloat], for [x >= 0]: the
    nearest multiple of 1/100, the larger one on a tie. *)
Definition toFixed2 (x : Q) : Q :=
  (inject_Z (Qfloor (x * 100 + (1 # 2))) / 100)%Q.

Definition getRandomFloat (min max : Q) : Sim Q :=
  r <- Math_random ;; ret (toFixed2 (r * (max - min) + min)%Q).

(** [s.substring(a, b)] for [a <= b], and [s.slice(0, b)]. *)
Definition js_substring (a b : nat) (s : string) : string :=
  substring a (b - a)%nat s.

(** [s.includes(sub)]. *)
Fixpoint includes (s sub : string) : bool :=
  prefix sub s ||
  match s with
  | EmptyString => false
  | String _ s' => includes s' sub
  end.

(** Decimal text of an array index or a count. *)
Definition string_of_nat (n : nat) : string :=
  NilZero.string_of_uint (Nat.to_uint n).

(** ** Mock constants *)

Definition MOCK_ENVIRONMENTS : list Env.t :=
  [ Env.mk "env-1" "Staging-WebApp-Test"
      "Environment for testing web application features before production deployment."
      Env.Active 5 3 "2024-07-20" "2024-08-01T14:30:00Z" "user-alpha" "us-east-1"
      (Env.mkConfig 500 90 true false);
    Env.mk "env-2" "Mobile-iOS-Integration"
      "Dedicated environment for mobile iOS app backend integrations and QA."
      Env.Active 3 2 "2024-07-18" "2024-08-01T10:15:00Z" "user-beta" "eu-west-1"
      (Env.mkConfig 1000 180 true false);
    Env.mk "env-3" "Archived-Q2-Tests"
      "Historical environment for Q2 project testing, now stopped."
      Env.Stopped 1 0 "2024-06-30" "2024-07-05T09:00:00Z" "user-gamma" "ap-southeast-2"
      (Env.mkConfig 100 30 false true);
    Env.mk "env-4" "Dev-Frontend-Playground"
      "Frontend development sandbox for rapid prototyping."
      Env.Active 2 1 "2024-07-25" "2024-08-01T16:00:00Z" "user-alpha" "us-west-2"
      (Env.mkConfig 750 90 true true);
    Env.mk "env-5" "Internal-Tooling-API"
      "Sandbox for developing internal API services."
      Env.Provisioning 0 0 "2024-07-29" "2024-07-29T11:00:00Z" "user-delta" "us-east-1"
      (Env.mkConfig 200 60 true false);
    Env.mk "env-6" "POC-Experiment"
      "Proof-of-concept environment for a new feature idea."
      Env.Active 1 0 "2024-07-10" "2024-07-28T18:00:00Z" "user-epsilon" "eu-central-1"
      (Env.mkConfig 300 30 true true);
    Env.mk "env-7" "Analytics-Reporting"
      "Environment for integrating with third-party analytics platforms."
      Env.Stopped 0 0 "2024-06-01" "2024-06-15T12:00:00Z" "user-zeta" "us-east-1"
      (Env.mkConfig 100 180 false false) ].

Definition MOCK_API_ENDPOINTS : list Endpoint.t :=
  [ Endpoint.mk "ep-1" Endpoint.GET "/users/{id}" "Retrieve user details"
      None
      (Some (JObj [("id", JStr "string"); ("name", JStr "string"); ("email", JStr "string")]))
      ["User"; "Read"] true;
    Endpoint.mk "ep-2" Endpoint.POST "/users" "Create a new user"
      (Some (JObj [("name", JStr "string"); ("email", JStr "string")]))
      (Some (JObj [("id", JStr "string"); ("name", JStr "string")]))
      ["User"; "Write"] true;
    Endpoint.mk "ep-3" Endpoint.GET "/products" "List all products"
      None
      (Some (JObj [("items",
         JArr [JObj [("id", JStr "string"); ("name", JStr "string"); ("price", JStr "number")]])]))
      ["Product"; "Read"] false;
    Endpoint.mk "ep-4" Endpoint.DELETE "/products/{id}" "Delete a product"
      None None ["Product"; "Write"] true;
    Endpoint.mk "ep-5" Endpoint.POST "/orders" "Place a new order"
      (Some (JObj [("userId", JStr "string"); ("productId", JStr "string");
                   ("quantity", JStr "number")]))
      None ["Order"; "Write"] true;
    Endpoint.mk "ep-6" Endpoint.GET "/status" "Check API health"
      None
      (Some (JObj [("status", JStr "string"); ("uptime", JStr "string")]))
      ["System"] false ].

(** ** The sandbox store ([SandboxProvider]) *)

Record Store := mkStore {
  environments : list Env.t;
  selectedEnvironmentId : option string;     (* [None] is [null] *)
  apiKeys : list Key.t;
  webhooks : list Hook.t;
  logs : list Log.t }.

Definition setEnvironments (f : list Env.t -> list Env.t) (s : Store) : Store :=
  mkStore (f (environments s)) (selectedEnvironmentId s) (apiKeys s) (webhooks s) (logs s).

Definition setSelectedEnvironmentId (v : option string) (s : Store) : Store :=
  mkStore (environments s) v (apiKeys s) (webhooks s) (logs s).

Definition setApiKeys (f : list Key.t -> list Key.t) (s : Store) : Store :=
  mkStore (environments s) (selectedEnvironmentId s) (f (apiKeys s)) (webhooks s) (logs s).

Definition setWebhooks (f : list Hook.t -> list Hook.t) (s : Store) : Store :=
  mkStore (environments s) (selectedEnvironmentId s) (apiKeys s) (f (webhooks s)) (logs s).

Definition setLogs (f : list Log.t -> list Log.t) (s : Store) : Store :=
  mkStore (environments s) (selectedEnvironmentId s) (apiKeys s) (webhooks s) (f (logs s)).

(** [selectedEnvironmentId === id], where the left side may be [null]. *)
Definition selected_is (sel : option string) (id : string) : bool :=
  match sel with
  | Some x => String.eqb x id
  | None => false
  end.

Definition addEnvironment (env : Env.t) : Store -> Store :=
  setEnvironments (fun prev => (prev ++ [env])%list).

Definition updateEnvironment (updatedEnv : Env.t) : Store -> Store :=
  setEnvironments (fun prev =>
    map (fun env => if String.eqb (Env.id env) (Env.id updatedEnv) then updatedEnv else env) prev).

Definition deleteEnvironment (id : string) (s : Store) : Store :=
  let s1 := setEnvironments (fun prev =>
              filter (fun env => negb (String.eqb (Env.id env) id)) prev) s in
  let s2 := setApiKeys (fun prev =>
              filter (fun key => negb (String.eqb (Key.environmentId key) id)) prev) s1 in
  let s3 := setWebhooks (fun prev =>
              filter (fun webhook => negb (String.eqb (Hook.environmentId webhook) id)) prev) s2 in
  let s4 := setLogs (fun prev =>
              filter (fun log => negb (String.eqb (Log.environmentId log) id)) prev) s3 in
  if selected_is (selectedEnvironmentId s) id then setSelectedEnvironmentId None s4 else s4.

Definition addApiKey (key : Key.t) : Store -> Store :=
  setApiKeys (fun prev => (prev ++ [key])%list).

Definition updateApiKey (updatedKey : Key.t) : Store -> Store :=
  setApiKeys (fun prev =>
    map (fun key => if String.eqb (Key.id key) (Key.id updatedKey) then updatedKey else key) prev).

Definition deleteApiKey (id : string) : Store -> Store :=
  setApiKeys (fun prev => filter (fun key => negb (String.eqb (Key.id key) id)) prev).

Definition addWebhook (webhook : Hook.t) : Store -> Store :=
  setWebhooks (fun prev => (prev ++ [webhook])%list).

Definition updateWebhook (updatedWebhook : Hook.t) : Store -> Store :=
  setWebhooks (fun prev =>
    map (fun webhook =>
           if String.eqb (Hook.id webhook) (Hook.id updatedWebhook) then updatedWebhook
           else webhook) prev).

Definition deleteWebhook (id : string) : Store -> Store :=
  setWebhooks (fun prev => filter (fun webhook => negb (String.eqb (Hook.id webhook) id)) prev).

Definition addLog (log : Log.t) : Store -> Store :=
  setLogs (fun prev => log :: prev).

(** Reads are filters over the collections, as the views do them. *)
Definition filteredApiKeys (environmentId : string) (s : Store) : list Key.t :=
  filter (fun key => String.eqb (Key.environmentId key) environmentId) (apiKeys s).

Definition filteredWebhooks (environmentId : string) (s : Store) : list Hook.t :=
  filter (fun webhook => String.eqb (Hook.environmentId webhook) environmentId) (webhooks s).

Definition envLogs (environmentId : string) (s : Store) : list Log.t :=
  filter (fun log => String.eqb (Log.environmentId log) environmentId) (logs s).

(** ** Array helpers *)

(** [arr.sort(cmp)]: the sort is stable, and for a comparator that is a
    total preorder its result is the stable sorted arrangement, which
    insertion from the right computes: an element goes in front of the
    first later element it does not have to follow. *)
Fixpoint insertBy {T} (cmp : T -> T -> Z) (x : T) (l : list T) : list T :=
  match l with
  | [] => [x]
  | y :: l' => if cmp x y <=? 0 then x :: y :: l' else y :: insertBy cmp x l'
  end.

Definition array_sort {T} (cmp : T -> T -> Z) (l : list T) : list T :=
  fold_right (insertBy cmp) [] l.

(** [arr.slice(0, end)]: a negative [end] counts from the end. *)
Definition slice0 {T} (stop : Z) (l : list T) : list T :=
  if stop <? 0
  then firstn (Z.to_nat (Z.max (Z.of_nat (List.length l) + stop) 0)) l
  else firstn (Z.to_nat stop) l.

(** [arr.map(f)] for an [f] that draws from the world, left to right. *)
Fixpoint mapSim {A B} (f : A -> Sim B) (l : list A) : Sim (list B) :=
  match l with
  | [] => ret []
  | a :: l' => b <- f a ;; bs <- mapSim f l' ;; ret (b :: bs)
  end.

(** ** State of the request tester *)

Record TesterState := mkTester {
  isLoading : bool;
  response : string;
  statusCode : option Z;          (* [None] is [null] *)
  responseTime : option Q;
  error : option string }.

Definition setIsLoading (v : bool) (st : TesterState) : TesterState :=
  mkTester v (response st) (statusCode st) (responseTime st) (error st).

Definition setResponse (v : string) (st : TesterState) : TesterState :=
  mkTester (isLoading st) v (statusCode st) (responseTime st) (error st).

Definition setStatusCode (v : option Z) (st : TesterState) : TesterState :=
  mkTester (isLoading st) (response st) v (responseTime st) (error st).

Definition setResponseTime (v : option Q) (st : TesterState) : TesterState :=
  mkTester (isLoading st) (response st) (statusCode st) v (error st).

Definition setError (v : option string) (st : TesterState) : TesterState :=
  mkTester (isLoading st) (response st) (statusCode st) (responseTime st) v.

(** How the [try] block of the handler is left. *)
Inductive Completion :=
| Normal                       (* control reaches the end of the block *)
| Return                       (* an early [return] *)
| Throw (message : string).    (* an exception, with [err.message] *)

Definition key_active (k : Key.t) : bool :=
  match Key.status k with Key.Active => true | _ => false end.

Definition has_permission (k : Key.t) (p : string) : bool :=
  existsb (String.eqb p) (Key.permissions k).

Definition is_write (m : Endpoint.Method) : bool :=
  match m with
  | Endpoint.POST | Endpoint.PUT | Endpoint.DELETE | Endpoint.PATCH => true
  | Endpoint.GET => false
  end.

Definition is_get (m : Endpoint.Method) : bool :=
  match m with Endpoint.GET => true | _ => false end.

(** The permission test of the handler, with the grouping JavaScript
    gives it: [&&] binds tighter than [||]. *)
Definition forbidden (method : Endpoint.Method) (usedKey : Key.t) : bool :=
  (negb (has_permission usedKey "admin")
   && (is_write method && negb (has_permission usedKey "write:data")))
  || (is_get method && negb (has_permission usedKey "read:data")).

(** A string is truthy when it is not empty. *)
Definition truthy (s : string) : bool := negb (String.eqb s "").

Section Builtins.

(** [JSON.stringify(value, null, space)]; [space = 0] is the call with
    one argument. *)
Variable JSON_stringify : Json -> nat -> string.
(** [s.toLowerCase()]. *)
Variable toLowerCase : string -> string.
(** [r.toString(36)] for a number [r]. *)
Variable toString36 : Q -> string.

Definition generateUUID : Sim string :=
  a <- Math_random ;;
  b <- Math_random ;;
  ret (js_substring 2 15 (toString36 a) ++ js_substring 2 15 (toString36 b)).

Definition sources : list Log.Source := [Log.API; Log.Webhook; Log.System; Log.Auth].

Definition levels : list Log.Level :=
  [Log.INFO; Log.INFO; Log.INFO; Log.WARN; Log.ERROR; Log.DEBUG].

Definition messages (source : Log.Source) : list string :=
  match source with
  | Log.API => ["Request received"; "Data processed"; "Resource not found";
                "Authentication failed"; "Rate limit hit"]
  | Log.Webhook => ["Delivery successful"; "Delivery failed"; "Retrying delivery";
                    "Webhook configured"]
  | Log.System => ["Environment started"; "Environment stopped"; "Configuration updated";
                   "Provisioning complete"]
  | Log.Auth => ["Login attempt"; "API key validated"; "Permission denied"]
  end.

Definition source_is_API (s : Log.Source) : bool :=
  match s with Log.API => true | _ => false end.

Definition level_is (a b : Log.Level) : bool :=
  String.eqb (Log.levelName a) (Log.levelName b).

(** One turn of the loop of [generateMockLogs]: the entry it pushes. *)
Definition generateMockLog (envId : string) : Sim Log.t :=
  source <- getRandomItem Log.API sources ;;
  level <- getRandomItem Log.INFO levels ;;
  now <- Date_now ;;
  days <- getRandomInt 0 30 ;;
  hours <- getRandomInt 0 23 ;;
  minutes <- getRandomInt 0 59 ;;
  let timestamp :=
    now - days * 24 * 60 * 60 * 1000 - hours * 60 * 60 * 1000 - minutes * 60 * 1000 in
  requestId <- (if source_is_API source
                then u <- generateUUID ;; ret (Some (js_substring 0 10 u))
                else ret None) ;;
  statusCode <- (if source_is_API source && negb (level_is level Log.DEBUG)
                 then getRandomItem None
                        (map Some [200; 201; 204; 400; 401; 403; 404; 429; 500])
                 else ret None) ;;
  latencyMs <- (if source_is_API source
                then match statusCode with
                     | Some c => if negb (c =? 0) && (c <? 500)
                                 then l <- getRandomInt 10 1500 ;; ret (Some l)
                                 else ret None
                     | None => ret None
                     end
                else ret None) ;;
  id <- generateUUID ;;
  message <- getRandomItem "" (messages source) ;;
  ret (Log.mk id envId timestamp level source message
         (if level_is level Log.ERROR
          then Some (JObj [("errorType", JStr "Timeout"); ("stackTrace", JStr "...")])
          else None)
         requestId statusCode latencyMs).

Fixpoint generateMockLogs_loop (envId : string) (count : nat) : Sim (list Log.t) :=
  match count with
  | O => ret []
  | S n => entry <- generateMockLog envId ;;
           rest <- generateMockLogs_loop envId n ;;
           ret (entry :: rest)
  end.

(** The comparator of the sort: newest first. *)
Definition newestFirst_cmp (a b : Log.t) : Z := Log.timestamp b - Log.timestamp a.

Definition generateMockLogs (envId : string) (count : Z) : Sim (list Log.t) :=
  logs <- generateMockLogs_loop envId (Z.to_nat count) ;;
  ret (array_sort newestFirst_cmp logs).

Definition refreshLogs (envId : string) (s : Store) : Sim Store :=
  count <- getRandomInt 5 20 ;;
  newLogs <- generateMockLogs envId count ;;
  ret (setLogs (fun prev =>
         (newLogs ++ filter (fun log => negb (String.eqb (Log.environmentId log) envId)) prev)%list)
       s).

(** The initial value of the [logs] state: a batch per mock
    environment, appended in the order of [MOCK_ENVIRONMENTS]. *)
Fixpoint initialLogs (envs : list Env.t) : Sim (list Log.t) :=
  match envs with
  | [] => ret []
  | env :: rest =>
      count <- getRandomInt 50 150 ;;
      batch <- generateMockLogs (Env.id env) count ;;
      more <- initialLogs rest ;;
      ret (batch ++ more)%list
  end.

(** The store as [SandboxProvider] first renders it.  [MOCK_API_KEYS]
    and [MOCK_WEBHOOKS] are drawn once when the module loads and are
    taken as given. *)
Definition initialStore (MOCK_API_KEYS : list Key.t) (MOCK_WEBHOOKS : list Hook.t)
  : Sim Store :=
  allLogs <- initialLogs MOCK_ENVIRONMENTS ;;
  ret (mkStore MOCK_ENVIRONMENTS None MOCK_API_KEYS MOCK_WEBHOOKS allLogs).

(** ** The log viewer ([EnvironmentLogs]) *)

Definition searchMatch (searchTerm : string) (log : Log.t) : bool :=
  String.eqb searchTerm ""
  || includes (toLowerCase (Log.message log)) (toLowerCase searchTerm)
  || match Log.requestId log with
     | Some r => includes (toLowerCase r) (toLowerCase searchTerm)
     | None => false
     end
  || match Log.details log with
     | Some d => includes (toLowerCase (JSON_stringify d 0)) (toLowerCase searchTerm)
     | None => false
     end.

Definition filteredLogs (logs : list Log.t) (environmentId filterLevel filterSource
                          searchTerm : string) (displayCount : Z) : list Log.t :=
  let envLogs := filter (fun log => String.eqb (Log.environmentId log) environmentId) logs in
  slice0 displayCount
    (filter (fun log =>
       let levelMatch :=
         String.eqb filterLevel "ALL" || String.eqb (Log.levelName (Log.level log)) filterLevel in
       let sourceMatch :=
         String.eqb filterSource "ALL"
         || String.eqb (Log.sourceName (Log.source log)) filterSource in
       levelMatch && sourceMatch && searchMatch searchTerm log) envLogs).

(** ** The request tester ([APIRequestTester]) *)

Definition notFoundBody (path : string) (method : Endpoint.Method) : Json :=
  JObj [("message", JStr "Mock endpoint not found");
        ("details", JStr ("Path: " ++ path ++ ", Method: " ++ Endpoint.methodName method))].

Definition methodNotAllowedBody (expected got : Endpoint.Method) : Json :=
  JObj [("message", JStr "Method Not Allowed");
        ("details", JStr ("Expected " ++ Endpoint.methodName expected ++ ", got "
                          ++ Endpoint.methodName got))].

Definition invalidKeyBody : Json :=
  JObj [("message", JStr "Unauthorized"); ("details", JStr "Invalid or revoked API Key")].

Definition forbiddenBody : Json :=
  JObj [("message", JStr "Forbidden");
        ("details", JStr "API Key does not have required permissions")].

Definition keyRequiredBody : Json :=
  JObj [("message", JStr "Unauthorized"); ("details", JStr "API Key required")].

(** An early exit of the handler: the four state updates every refusal
    makes, then [return]. *)
Definition refuse (code : Z) (body : Json) (err : string) (startTime : Q)
                  (st : TesterState) : Sim (Completion * TesterState) :=
  let st := setStatusCode (Some code) st in
  now <- performance_now ;;
  let st := setResponseTime (Some (now - startTime)%Q) st in
  let st := setResponse (JSON_stringify body 2) st in
  let st := setError (Some err) st in
  ret (Return, st).

(** The answers by method, once the call is let through. *)
Definition mockItem (i : nat) : Sim Json :=
  value <- getRandomFloat 10 1000 ;;
  ret (JObj [("id", JStr ("item-" ++ string_of_nat i));
             ("name", JStr ("Generated Item " ++ string_of_nat (i + 1)));
             ("value", JNum value)]).

Definition succeed (method : Endpoint.Method) (path : string) (st : TesterState)
  : Sim (Completion * TesterState) :=
  r <- match method with
       | Endpoint.GET =>
           if includes path "{id}"
           then ret (JObj [("id", JStr "some-id-123"); ("name", JStr "Mock Item");
                           ("status", JStr "active"); ("data", JStr "example")], 200)
           else
             n <- getRandomInt 3 10 ;;
             items <- mapSim mockItem (seq 0 (Z.to_nat n)) ;;
             ret (JObj [("items", JArr items)], 200)
       | Endpoint.POST =>
           id <- generateUUID ;;
           ret (JObj [("message", JStr "Resource created successfully"); ("id", JStr id);
                      ("status", JStr "pending")], 201)
       | Endpoint.PUT | Endpoint.PATCH =>
           ret (JObj [("message", JStr "Resource updated successfully")], 200)
       | Endpoint.DELETE =>
           ret (JObj [("message", JStr "Resource deleted successfully")], 204)
       end ;;
  let (mockResponse, mockStatusCode) := r in
  let st := setStatusCode (Some mockStatusCode) st in
  let st := setResponse (JSON_stringify mockResponse 2) st in
  ret (Normal, st).

(** The body of the [try] block, over a catalog of endpoints. *)
Definition tryBlock (catalog : list Endpoint.t) (apiKeys : list Key.t)
    (method : Endpoint.Method) (path selectedAPIKeyId : string)
    (startTime : Q) (st : TesterState) : Sim (Completion * TesterState) :=
  delay <- getRandomInt 100 1500 ;;
  _ <- setTimeout_await delay ;;
  match find (fun ep => String.eqb (Endpoint.path ep) path) catalog with
  | None =>
      refuse 404 (notFoundBody path method) "Mock endpoint not found." startTime st
  | Some mockEndpoint =>
      if negb (Endpoint.method_eqb method (Endpoint.method mockEndpoint))
      then refuse 405 (methodNotAllowedBody (Endpoint.method mockEndpoint) method)
                  "Method Not Allowed." startTime st
      else if Endpoint.isAuthenticated mockEndpoint && truthy selectedAPIKeyId
      then
        match find (fun k => String.eqb (Key.id k) selectedAPIKeyId) apiKeys with
        | None =>
            refuse 401 invalidKeyBody "Unauthorized: Invalid API Key." startTime st
        | Some usedKey =>
            if negb (key_active usedKey)
            then refuse 401 invalidKeyBody "Unauthorized: Invalid API Key." startTime st
            else if forbidden method usedKey
            then refuse 403 forbiddenBody "Forbidden: Insufficient permissions." startTime st
            else succeed method path st
        end
      else if Endpoint.isAuthenticated mockEndpoint && negb (truthy selectedAPIKeyId)
      then refuse 401 keyRequiredBody "Unauthorized: API Key required." startTime st
      else succeed method path st
  end.

Definition catchBlock (message : string) (st : TesterState) : TesterState :=
  let st := setError (Some ("Request failed: " ++ message)) st in
  let st := setStatusCode (Some 500) st in
  setResponse (JSON_stringify (JObj [("error", JStr message)]) 2) st.

Definition finallyBlock (startTime : Q) (st : TesterState) : Sim TesterState :=
  now <- performance_now ;;
  let st := setResponseTime (Some (now - startTime)%Q) st in
  ret (setIsLoading false st).

(** [try { ... } catch (err) { ... } finally { ... }] around a block. *)
Definition tryCatchFinally (block : Sim (Completion * TesterState)) (startTime : Q)
  : Sim TesterState :=
  r <- block ;;
  let (completion, st) := r in
  let st := match completion with
            | Throw message => catchBlock message st
            | Normal | Return => st
            end in
  finallyBlock startTime st.

Definition handleSendRequestOn (catalog : list Endpoint.t) (apiKeys : list Key.t)
    (method : Endpoint.Method) (path selectedAPIKeyId : string)
    (st : TesterState) : Sim TesterState :=
  let st := setIsLoading true st in
  let st := setResponse "" st in
  let st := setStatusCode None st in
  let st := setResponseTime None st in
  let st := setError None st in
  startTime <- performance_now ;;
  tryCatchFinally (tryBlock catalog apiKeys method path selectedAPIKeyId startTime st)
                  startTime.

(** The handler of the component, which reads [MOCK_API_ENDPOINTS]. *)
Definition handleSendRequest : list Key.t -> Endpoint.Method -> string -> string ->
                               TesterState -> Sim TesterState :=
  handleSendRequestOn MOCK_API_ENDPOINTS.

End Builtins.

(** ** Histories of the store *)

Inductive StoreOp :=
| AddEnvironment (env : Env.t)
| UpdateEnvironment (updatedEnv : Env.t)
| DeleteEnvironment (id : string)
| SetSelectedEnvironmentId (id : option string)
| AddApiKey (key : Key.t)
| UpdateApiKey (updatedKey : Key.t)
| DeleteApiKey (id : string)
| AddWebhook (webhook : Hook.t)
| UpdateWebhook (updatedWebhook : Hook.t)
| DeleteWebhook (id : string)
| AddLog (log : Log.t)
| RefreshLogs (envId : string).

Definition applyOp (toString36 : Q -> string) (op : StoreOp) (s : Store) : Sim Store :=
  match op with
  | AddEnvironment env => ret (addEnvironment env s)
  | UpdateEnvironment env => ret (updateEnvironment env s)
  | DeleteEnvironment id => ret (deleteEnvironment id s)
  | SetSelectedEnvironmentId id => ret (setSelectedEnvironmentId id s)
  | AddApiKey key => ret (addApiKey key s)
  | UpdateApiKey key => ret (updateApiKey key s)
  | DeleteApiKey id => ret (deleteApiKey id s)
  | AddWebhook webhook => ret (addWebhook webhook s)
  | UpdateWebhook webhook => ret (updateWebhook webhook s)
  | DeleteWebhook id => ret (deleteWebhook id s)
  | AddLog log => ret (addLog log s)
  | RefreshLogs envId => refreshLogs toString36 envId s
  end.

(** The states the provider can be in: the first render, then any
    operation that [allowed] lets through, each in a fair world. *)
Inductive reachableVia (toString36 : Q -> string) (allowed : StoreOp -> Store -> bool)
  : Store -> Prop :=
| reach_init : forall keys hooks w,
    fair w ->
    reachableVia toString36 allowed (fst (initialStore toString36 keys hooks w))
| reach_step : forall s op w,
    reachableVia toString36 allowed s ->
    fair w ->
    allowed op s = true ->
    reachableVia toString36 allowed (fst (applyOp toString36 op s w)).

Definition reachable (toString36 : Q -> string) : Store -> Prop :=
  reachableVia toString36 (fun _ _ => true).

(** Descending time stamps. *)
Definition newestFirst (l : list Log.t) : Prop :=
  StronglySorted (fun a b => Log.timestamp b <= Log.timestamp a) l.

Definition logsNewestFirst (s : Store) : Prop :=
  forall environmentId, newestFirst (envLogs environmentId s).

(** An [addLog] whose entry is no older than the entries its
    environment already has; every other operation qualifies. *)
Definition inOrder (op : StoreOp) (s : Store) : bool :=
  match op with
  | AddLog log =>
      forallb (fun old => Log.timestamp old <=? Log.timestamp log)
              (envLogs (Log.environmentId log) s)
  | _ => true
  end.

(** The denormalised counters of every environment match what the
    collections hold. *)
Definition countsAgree (s : Store) : bool :=
  forallb (fun env =>
    (Env.apiKeyCount env =? Z.of_nat (List.length (filteredApiKeys (Env.id env) s)))
    && (Env.webhookCount env =? Z.of_nat (List.length (filteredWebhooks (Env.id env) s))))
    (environments s).

(** A computation that only draws random numbers: clocks and timers
    are as before, and the tapes are never rewritten. *)
Definition draws_only {A} (c : Sim A) : Prop :=
  forall w,
    random_tape (snd (c w)) = random_tape w /\
    date_tape (snd (c w)) = date_tape w /\
    date_pos (snd (c w)) = date_pos w /\
    perf_tape (snd (c w)) = perf_tape w /\
    perf_pos (snd (c w)) = perf_pos w /\
    timers (snd (c w)) = timers w.

(** The delay the handler waits for: the first draw of the run. *)
Definition delay_of (w : World) : Z :=
  randomInt_of 100 1500 (random_tape w (random_pos w)).

(** A [try] block of the handler that keeps the performance tape,
    reads the clock at most forwards and sets exactly one timer. *)
Definition one_timer {A} (d : World -> Z) (c : Sim A) : Prop :=
  forall w,
    perf_tape (snd (c w)) = perf_tape w /\
    (perf_pos w <= perf_pos (snd (c w)))%nat /\
    timers (snd (c w)) = d w :: timers w.

(** ** Sample data *)

Definition sample_stringify : Json -> nat -> string := fun _ _ => "{}".
Definition sample_toLowerCase : string -> string := fun s => s.
Definition sample_toString36 : Q -> string := fun _ => "0.4fzyo82mvyr".

(** A world whose random draws are all 1/2 and whose clocks stand at
    fixed values. *)
Definition sample_world : World :=
  mkWorld (fun _ => 1 # 2)%Q 0 (fun _ => 1722500000000) 0
          (fun n => inject_Z (Z.of_nat n * 700)) 0 [].

Definition key_of (id environmentId : string) (status : Key.Status)
                  (permissions : list string) : Key.t :=
  Key.mk id environmentId "Test Key" "sk_test_12345678...abcd" status permissions
         "2024-07-01" None "2024-07-30" None.

Definition adminKey : Key.t := key_of "key-admin" "env-1" Key.Active ["admin"].
Definition readKey : Key.t := key_of "key-read" "env-1" Key.Active ["read:data"].
Definition writeKey : Key.t := key_of "key-write" "env-2" Key.Active ["write:data"].
Definition revokedKey : Key.t := key_of "key-revoked" "env-1" Key.Revoked ["admin"].

Definition hook_of (id environmentId : string) : Hook.t :=
  Hook.mk id environmentId "Test Webhook" "https://example.com/webhook/listener/abc123"
          "s3cr3t" ["data.created"] Hook.Active "2024-07-01" "Never" true 3.

Definition log_of (id environmentId : string) (timestamp : Z) : Log.t :=
  Log.mk id environmentId timestamp Log.INFO Log.System "Environment started"
         None None None None.

Definition idleTester : TesterState := mkTester false "" None None None.

(** A store with two of the mock environments selected on the first. *)
Definition sampleStore : Store :=
  mkStore (firstn 2 MOCK_ENVIRONMENTS) (Some "env-1")
          [adminKey; writeKey; readKey]
          [hook_of "hook-1" "env-1"; hook_of "hook-2" "env-2"]
          [log_of "log-3" "env-1" 300; log_of "log-2" "env-2" 200; log_of "log-1" "env-1" 100].

(** A store whose counters are right: one environment with one key and
    one webhook. *)
Definition tidyStore : Store :=
  mkStore [Env.mk "env-9" "Tidy" "A consistent environment." Env.Active 1 1
             "2024-07-20" "2024-08-01T14:30:00Z" "user-alpha" "us-east-1"
             (Env.mkConfig 500 90 true false)]
          None
          [key_of "key-9" "env-9" Key.Active ["read:data"]]
          [hook_of "hook-9" "env-9"]
          [].

(** The first mock environment, which [sampleStore] holds. *)
Definition sampleEnv : Env.t :=
  Env.mk "env-1" "Staging-WebApp-Test"
    "Environment for testing web application features before production deployment."
    Env.Active 5 3 "2024-07-20" "2024-08-01T14:30:00Z" "user-alpha" "us-east-1"
    (Env.mkConfig 500 90 true false).

(** The first render in [sample_world], then two calls of [addLog] for
    "env-1": an entry stamped 100, then one stamped 50. *)
Definition firstRender : Store :=
  fst (initialStore sample_toString36 [adminKey] [hook_of "hook-1" "env-1"] sample_world).

Definition unorderedStore : Store :=
  addLog (log_of "log-b" "env-1" 50) (addLog (log_of "log-a" "env-1" 100) firstRender).

(** A world whose tapes vary: the random numbers run through the
    hundredths 0.11, 0.48, 0.85, 0.22, ..., the clock advances by a
    second at each reading. *)
Definition varied_world : World :=
  mkWorld (fun n => ((Z.of_nat n * 37 + 11) mod 100) # 100)%Q 0
          (fun n => 1722500000000 + Z.of_nat n * 1000) 0
          (fun n => inject_Z (Z.of_nat n * 700)) 0 [].

(** The first render in [varied_world], then a refresh of the logs of
    "env-2", then a call of [addLog] for "env-2" with an entry stamped
    later than the entries the refresh produced. *)
Definition variedRender : Store :=
  fst (initialStore sample_toString36 [adminKey] [hook_of "hook-1" "env-1"] varied_world).

Definition variedRefreshed : Store :=
  fst (applyOp sample_toString36 (RefreshLogs "env-2") variedRender varied_world).

Definition orderedStore : Store :=
  addLog (log_of "log-new" "env-2" 1722600000000) variedRefreshed.

(** ** Referential integrity of the store *)

Definition envExists (s : Store) (id : string) : bool :=
  existsb (fun env => String.eqb (Env.id env) id) (environments s).

(** Every API key, webhook and log entry names an environment the
    store holds. *)
Definition wellReferenced (s : Store) : Prop :=
  (forall k, In k (apiKeys s) -> envExists s (Key.environmentId k) = true) /\
  (forall h, In h (webhooks s) -> envExists s (Hook.environmentId h) = true) /\
  (forall l, In l (logs s) -> envExists s (Log.environmentId l) = true).

(** ** The main view ([SandboxView]) *)

(** [env.id === selectedEnvironmentId], where the right side may be
    [null]. *)
Definition id_is_selected (sel : option string) (env : Env.t) : bool :=
  match sel with
  | Some x => String.eqb (Env.id env) x
  | None => false
  end.

Definition currentEnvironment (s : Store) : option Env.t :=
  find (id_is_selected (selectedEnvironmentId s)) (environments s).

Inductive View :=
| DetailView (environment : Env.t)     (* the detail, tester and snippet panels *)
| ListView.                            (* the header and the table *)

(** [if (selectedEnvironmentId && currentEnvironment)]: an empty id
    is falsy, like [null]. *)
Definition SandboxView (s : Store) : View :=
  match selectedEnvironmentId s, currentEnvironment s with
  | Some id, Some env => if truthy id then DetailView env else ListView
  | _, _ => ListView
  end.

Definition handleSelectEnvironment (id : string) : Store -> Store :=
  setSelectedEnvironmentId (Some id).

Definition handleBackToEnvironments : Store -> Store :=
  setSelectedEnvironmentId None.

(** [SandboxHeader]: the number of Active environments. *)
Definition activeEnvironments (s : Store) : nat :=
  List.length (filter (fun env => match Env.status env with Env.Active => true | _ => false end)
                      (environments s)).

(** ** The key selector of the request tester *)

Definition availableKeys (apiKeys : list Key.t) (selectedEnvironmentId : option string)
  : list Key.t :=
  filter (fun key =>
            match selectedEnvironmentId with
            | Some id => String.eqb (Key.environmentId key) id
            | None => false
            end && key_active key) apiKeys.

(** The effect that keeps [selectedAPIKeyId] in step with
    [availableKeys]. *)
Definition selectKeyEffect (availableKeys : list Key.t) (selectedAPIKeyId : string)
  : string :=
  match availableKeys with
  | first :: _ => if negb (truthy selectedAPIKeyId) then Key.id first else selectedAPIKeyId
  | [] => ""
  end.

(** ** Check boxes of the forms *)

(** [handlePermissionChange], [handleEventChange] and the channel case
    of the alert form: a ticked box appends the value, a cleared box
    filters it out. *)
Definition handlePermissionChange (value : string) (checked : bool)
                                  (permissions : list string) : list string :=
  if checked then (permissions ++ [value])%list
  else filter (fun p => negb (String.eqb p value)) permissions.

(** ** Handlers that write to the store *)

Section Handlers.

Variable toString36 : Q -> string.
(** [new Date(ms).toISOString()] and [new Date(ms).toLocaleDateString()]
    for the instant [ms]. *)
Variable toISOString : Z -> string.
Variable toLocaleDateString : Z -> string.

(** [EnvironmentDetail]. *)
Definition handleUpdateStatus (environment : Env.t) (newStatus : Env.Status) (s : Store)
  : Sim Store :=
  now <- Date_now ;;
  ret (updateEnvironment
         (Env.mk (Env.id environment) (Env.name environment) (Env.description environment)
                 newStatus (Env.apiKeyCount environment) (Env.webhookCount environment)
                 (Env.createdAt environment) (toISOString now) (Env.ownerId environment)
                 (Env.region environment) (Env.config environment)) s).

Definition handleDelete (environment : Env.t) (s : Store) : Store :=
  handleBackToEnvironments (deleteEnvironment (Env.id environment) s).

(** [EnvironmentForm]. *)
Definition handleSubmit (isEditing : bool) (formData : Env.t) : Store -> Store :=
  if isEditing then updateEnvironment formData else addEnvironment formData.

(** [EnvironmentAPIKeys]. *)
Definition handleCreateKey (environmentId : string) (newKey : Key.t) (s : Store)
  : Sim Store :=
  id <- generateUUID toString36 ;;
  a <- generateUUID toString36 ;;
  b <- generateUUID toString36 ;;
  now <- Date_now ;;
  ret (addApiKey
         (Key.mk id environmentId (Key.name newKey)
                 ("sk_live_" ++ js_substring 0 8 a ++ "..." ++ js_substring 0 4 b)
                 (Key.status newKey) (Key.permissions newKey) (toISOString now)
                 (Key.expiresAt newKey) (Key.lastUsed newKey) (Key.rateLimitOverride newKey))
         s).

Definition handleUpdateKey (updatedKey : Key.t) : Store -> Store :=
  updateApiKey updatedKey.

(** [confirmed] is the answer to the [confirm] dialog. *)
Definition handleRevokeKey (key : Key.t) (confirmed : bool) (s : Store) : Sim Store :=
  if confirmed
  then now <- Date_now ;;
       ret (updateApiKey
              (Key.mk (Key.id key) (Key.environmentId key) (Key.name key) (Key.key key)
                      Key.Revoked (Key.permissions key) (Key.createdAt key)
                      (Some (toISOString now)) (Key.lastUsed key)
                      (Key.rateLimitOverride key)) s)
  else ret s.

Definition handleGenerateNewKey (environmentId : string) (s : Store) : Sim Store :=
  id <- generateUUID toString36 ;;
  today <- Date_now ;;
  a <- generateUUID toString36 ;;
  b <- generateUUID toString36 ;;
  now <- Date_now ;;
  ret (addApiKey
         (Key.mk id environmentId ("New Key " ++ toLocaleDateString today)
                 ("sk_test_" ++ js_substring 0 10 a ++ "..." ++ js_substring 0 4 b)
                 Key.Active ["read:data"] (toISOString now) None "Never" None)
         s).

(** [EnvironmentWebhooks]; [editingWebhook] tells whether a webhook is
    being edited. *)
Definition handleSaveWebhook (environmentId : string) (editingWebhook : bool)
                             (webhook : Hook.t) (s : Store) : Sim Store :=
  if editingWebhook
  then ret (updateWebhook webhook s)
  else
    id <- generateUUID toString36 ;;
    now <- Date_now ;;
    ret (addWebhook
           (Hook.mk id environmentId (Hook.name webhook) (Hook.url webhook)
                    (Hook.secret webhook) (Hook.events webhook) (Hook.status webhook)
                    (toISOString now) "Never" (Hook.retriesEnabled webhook)
                    (Hook.maxRetries webhook)) s).

Definition handleTriggerTestWebhook (webhook : Hook.t) (s : Store) : Sim Store :=
  now <- Date_now ;;
  ret (updateWebhook
         (Hook.mk (Hook.id webhook) (Hook.environmentId webhook) (Hook.name webhook)
                  (Hook.url webhook) (Hook.secret webhook) (Hook.events webhook)
                  (Hook.status webhook) (Hook.createdAt webhook) (toISOString now)
                  (Hook.retriesEnabled webhook) (Hook.maxRetries webhook)) s).

End Handlers.

(** ** Mock metrics ([EnvironmentMetrics]) *)

Inductive MetricType := api_calls | api_errors | api_latency | webhook_failures.

Record MetricData := mkMetric {
  metric_timestamp : Z;
  metric_value : Q }.

(** The numbers of [generateMockMetrics] are binary64 values: the
    rounding of [1/24] and of [days * 24] decides how many turns its
    loop makes.  [double q] is the double nearest to the rational [q],
    ties going to the even mantissa, with gradual underflow below
    [2^-1022].  Overflow to [Infinity], [NaN] and the sign of zero are
    left out. *)
Definition pow2 (e : Z) : Q :=
  match e with
  | Z0 => 1
  | Zpos p => inject_Z (Zpos (2 ^ p))
  | Zneg p => 1 # (2 ^ p)
  end%Q.

Definition round_half_even (q : Q) : Z :=
  let f := Qfloor q in
  match Qcompare (q - inject_Z f) (1 # 2) with
  | Lt => f
  | Gt => f + 1
  | Eq => if Z.even f then f else f + 1
  end.

(** The exponent [e] with [2^e <= a < 2^(e+1)], for [a > 0]. *)
Definition binade (a : Q) : Z :=
  let e0 := Z.log2 (Qnum a) - Z.log2 (Zpos (Qden a)) in
  if Qle_bool (pow2 e0) a then e0 else e0 - 1.

Definition double_pos (a : Q) : Q :=
  let e := Z.max (binade a) (-1022) in
  let ulp := pow2 (e - 52) in
  (inject_Z (round_half_even (a / ulp)) * ulp)%Q.

Definition double (q : Q) : Q :=
  match Qnum q with
  | Z0 => 0
  | Zpos _ => double_pos q
  | Zneg _ => - double_pos (- q)
  end%Q.

Definition getDaysForTimeframe (tf : string) : Q :=
  if String.eqb tf "1h" then double (1 / 24)%Q
  else if String.eqb tf "24h" then 1%Q
  else if String.eqb tf "7d" then 7%Q
  else if String.eqb tf "30d" then 30%Q
  else 1%Q.

(** The integer a [Date] keeps of a number of milliseconds: the
    fraction is dropped, towards zero. *)
Definition timeClip (ms : Q) : Z :=
  if Qle_bool 0 ms then Qfloor ms else Qceiling ms.

(** [x.toFixed(2)] for any sign, as the number its digits denote: the
    magnitude is rounded as in [toFixed2]. *)
Definition toFixed2_signed (x : Q) : Q :=
  if Qle_bool 0 x then toFixed2 x else (- toFixed2 (- x))%Q.

Definition initialBase (metricType : MetricType) : Q :=
  match metricType with
  | api_calls => 5000
  | api_latency => 100
  | _ => 0
  end%Q.

Definition fluctuation (metricType : MetricType) : Q :=
  match metricType with
  | api_calls => 1000
  | api_latency => 50
  | api_errors | webhook_failures => 2
  end%Q.

Definition isErrorOrLatency (metricType : MetricType) : bool :=
  match metricType with
  | api_errors | api_latency | webhook_failures => true
  | api_calls => false
  end.

(** The value of one turn of the loop, from the running base and the
    random number drawn; every operation rounds. *)
Definition nextValue (metricType : MetricType) (baseValue r : Q) : Q :=
  let value :=
    double (baseValue
            + double (double (double (r - (1 # 2)) * fluctuation metricType) * 2)) in
  if isErrorOrLatency metricType
  then
    let value := Qmax 0 value in
    let value := match metricType with api_errors => Qmin value 10 | _ => value end in
    match metricType with webhook_failures => Qmin value 5 | _ => value end
  else value.

(** The loop [for (let i = ...; i >= 0; i--)], from the counter [i]
    down, for at most [fuel] turns: [None] when the counter is still not
    negative after [fuel] turns. *)
Fixpoint generateMockMetrics_loop (metricType : MetricType) (fuel : nat)
    (i baseValue : Q) : Sim (option (list MetricData)) :=
  if Qle_bool 0 i then
    match fuel with
    | O => ret None
    | S n =>
        now <- Date_now ;;
        r <- Math_random ;;
        let timestamp :=
          timeClip (double (inject_Z now - double (double (double (i * 60) * 60) * 1000))) in
        let value := nextValue metricType baseValue r in
        rest <- generateMockMetrics_loop metricType n (double (i - 1)) value ;;
        ret (option_map
               (cons (mkMetric timestamp (double (toFixed2_signed value)))) rest)
    end
  else ret (Some []).

Definition generateMockMetrics (fuel : nat) (metricType : MetricType) (days : Q)
  : Sim (option (list MetricData)) :=
  generateMockMetrics_loop metricType fuel (double (days * 24)) (initialBase metricType).

(** The values the counter of that loop takes, from [i] down. *)
Fixpoint counterValues (fuel : nat) (i : Q) : option (list Q) :=
  if Qle_bool 0 i then
    match fuel with
    | O => None
    | S n => option_map (cons i) (counterValues n (double (i - 1)))
    end
  else Some [].

(** Sample values of the date built-ins. *)
Definition sample_toISOString : Z -> string := fun _ => "2024-08-01T08:13:20.000Z".
Definition sample_toLocaleDateString : Z -> string := fun _ => "8/1/2024".

(** * Properties *)

(** ** Filters on a string-valued field *)

Section FieldFilters.

Variable T : Type.
Variable field : T -> string.

Lemma In_filter_field_neq (id : string) (l : list T) (x : T) :
  In x (filter (fun y => negb (String.eqb (field y) id)) l) <-> In x l /\ field x <> id.
Proof.
  rewrite filter_In, negb_true_iff.
  split; intros [Hin H]; split; trivial.
  - intros Heq. apply String.eqb_eq in Heq. congruence.
  - destruct (String.eqb_spec (field x) id); [contradiction | reflexivity].
Qed.

Lemma filter_field_eq_after_neq (id other : string) (l : list T) :
  other <> id ->
  filter (fun y => String.eqb (field y) other)
         (filter (fun y => negb (String.eqb (field y) id)) l)
  = filter (fun y => String.eqb (field y) other) l.
Proof.
  intros Hne. induction l as [|x l IH]; simpl; [reflexivity|].
  destruct (String.eqb_spec (field x) id) as [Hid|Hid]; simpl.
  - destruct (String.eqb_spec (field x) other) as [Ho|Ho]; [congruence | exact IH].
  - rewrite IH. reflexivity.
Qed.

Lemma filter_field_eq_after_neq_same (id : string) (l : list T) :
  filter (fun y => String.eqb (field y) id)
         (filter (fun y => negb (String.eqb (field y) id)) l) = [].
Proof.
  induction l as [|x l IH]; simpl; [reflexivity|].
  destruct (String.eqb_spec (field x) id) as [Hid|Hid]; simpl; [exact IH|].
  destruct (String.eqb_spec (field x) id); [contradiction | exact IH].
Qed.

Lemma filter_field_eq_all (id : string) (l : list T) :
  Forall (fun y => field y = id) l ->
  filter (fun y => String.eqb (field y) id) l = l.
Proof.
  induction 1 as [|x l Hx _ IH]; simpl; [reflexivity|].
  rewrite Hx, String.eqb_refl, IH. reflexivity.
Qed.

Lemma filter_field_eq_none (id other : string) (l : list T) :
  other <> id ->
  Forall (fun y => field y = id) l ->
  filter (fun y => String.eqb (field y) other) l = [].
Proof.
  intros Hne. induction 1 as [|x l Hx _ IH]; simpl; [reflexivity|].
  rewrite Hx. destruct (String.eqb_spec id other); [congruence | exact IH].
Qed.

Lemma filter_field_eq_absent (id : string) (l : list T) :
  (forall y, In y l -> field y <> id) ->
  filter (fun y => String.eqb (field y) id) l = [].
Proof.
  induction l as [|x l IH]; simpl; intros H; [reflexivity|].
  destruct (String.eqb_spec (field x) id) as [E|_].
  - exfalso. apply (H x); auto.
  - apply IH. intros y Hy. apply H. auto.
Qed.

End FieldFilters.

(** ** [deleteEnvironment] *)

Lemma deleteEnvironment_environments id s :
  environments (deleteEnvironment id s)
  = filter (fun env => negb (String.eqb (Env.id env) id)) (environments s).
Proof. unfold deleteEnvironment. destruct (selected_is _ _); reflexivity. Qed.

Lemma deleteEnvironment_apiKeys id s :
  apiKeys (deleteEnvironment id s)
  = filter (fun key => negb (String.eqb (Key.environmentId key) id)) (apiKeys s).
Proof. unfold deleteEnvironment. destruct (selected_is _ _); reflexivity. Qed.

Lemma deleteEnvironment_webhooks id s :
  webhooks (deleteEnvironment id s)
  = filter (fun webhook => negb (String.eqb (Hook.environmentId webhook) id)) (webhooks s).
Proof. unfold deleteEnvironment. destruct (selected_is _ _); reflexivity. Qed.

Lemma deleteEnvironment_logs id s :
  logs (deleteEnvironment id s)
  = filter (fun log => negb (String.eqb (Log.environmentId log) id)) (logs s).
Proof. unfold deleteEnvironment. destruct (selected_is _ _); reflexivity. Qed.

Lemma deleteEnvironment_selected id s :
  selectedEnvironmentId (deleteEnvironment id s)
  = if selected_is (selectedEnvironmentId s) id then None else selectedEnvironmentId s.
Proof. unfold deleteEnvironment. destruct (selected_is _ _); reflexivity. Qed.

(** C1. Deleting an environment [E] that is in the store removes it
    from the environments, removes exactly the API keys, webhooks and
    log entries whose [environmentId] is [E]'s id, leaves what belongs
    to any other environment as it was (same entries, same order), and
    resets the selected environment to [null] when it was [E], leaving
    it alone otherwise. *)
Theorem deleteEnvironment_cascade (s : Store) (E : Env.t) :
  In E (environments s) ->
  let s' := deleteEnvironment (Env.id E) s in
  ~ In E (environments s') /\
  (forall E', In E' (environments s') <-> In E' (environments s) /\ Env.id E' <> Env.id E) /\
  (forall k, In k (apiKeys s') <-> In k (apiKeys s) /\ Key.environmentId k <> Env.id E) /\
  (forall h, In h (webhooks s') <-> In h (webhooks s) /\ Hook.environmentId h <> Env.id E) /\
  (forall l, In l (logs s') <-> In l (logs s) /\ Log.environmentId l <> Env.id E) /\
  (forall other, other <> Env.id E ->
     filteredApiKeys other s' = filteredApiKeys other s /\
     filteredWebhooks other s' = filteredWebhooks other s /\
     envLogs other s' = envLogs other s) /\
  (selectedEnvironmentId s = Some (Env.id E) -> selectedEnvironmentId s' = None) /\
  (selectedEnvironmentId s <> Some (Env.id E) ->
     selectedEnvironmentId s' = selectedEnvironmentId s).
Proof.
  intros _ s'. subst s'.
  split; [|split; [|split; [|split; [|split; [|split; [|split]]]]]].
  - rewrite deleteEnvironment_environments, In_filter_field_neq. intros [_ H]. congruence.
  - intros E'. rewrite deleteEnvironment_environments. apply In_filter_field_neq.
  - intros k. rewrite deleteEnvironment_apiKeys. apply In_filter_field_neq.
  - intros h. rewrite deleteEnvironment_webhooks. apply In_filter_field_neq.
  - intros l. rewrite deleteEnvironment_logs. apply In_filter_field_neq.
  - intros other Hne.
    unfold filteredApiKeys, filteredWebhooks, envLogs.
    rewrite deleteEnvironment_apiKeys, deleteEnvironment_webhooks, deleteEnvironment_logs.
    repeat split; now apply filter_field_eq_after_neq.
  - intros Hsel. rewrite deleteEnvironment_selected, Hsel. simpl.
    rewrite String.eqb_refl. reflexivity.
  - intros Hsel. rewrite deleteEnvironment_selected.
    destruct (selectedEnvironmentId s) as [x|]; simpl; [|reflexivity].
    destruct (String.eqb_spec x (Env.id E)); [congruence | reflexivity].
Qed.

Lemma deleteEnvironment_cascade_witness :
  In sampleEnv (environments sampleStore) /\
  ~ In sampleEnv (environments (deleteEnvironment "env-1" sampleStore)) /\
  envLogs "env-2" (deleteEnvironment "env-1" sampleStore) = [log_of "log-2" "env-2" 200] /\
  selectedEnvironmentId (deleteEnvironment "env-1" sampleStore) = None.
Proof.
  assert (Hin : In sampleEnv (environments sampleStore)) by (simpl; tauto).
  pose proof (deleteEnvironment_cascade sampleStore sampleEnv Hin) as H.
  simpl in H.
  destruct H as (Hgone & _ & _ & _ & _ & Hother & Hsel & _).
  split; [exact Hin|].
  split; [exact Hgone|].
  split.
  - destruct (Hother "env-2") as (_ & _ & Hlogs); [discriminate|].
    rewrite Hlogs. reflexivity.
  - apply Hsel. reflexivity.
Defined.

(** ** Key and webhook operations *)

(** C10. Each of [addApiKey], [updateApiKey], [deleteApiKey],
    [addWebhook], [updateWebhook] and [deleteWebhook] changes its own
    collection only: the environments (hence their [apiKeyCount] and
    [webhookCount]), the selection, the logs and the other collection
    are as before.  So the counters can disagree with the collections
    afterwards: from a store whose counters are right, each of the six
    operations reaches one whose counters are wrong. *)
Theorem key_and_webhook_ops_frame :
  (forall key s,
     environments (addApiKey key s) = environments s /\
     selectedEnvironmentId (addApiKey key s) = selectedEnvironmentId s /\
     webhooks (addApiKey key s) = webhooks s /\ logs (addApiKey key s) = logs s) /\
  (forall key s,
     environments (updateApiKey key s) = environments s /\
     selectedEnvironmentId (updateApiKey key s) = selectedEnvironmentId s /\
     webhooks (updateApiKey key s) = webhooks s /\ logs (updateApiKey key s) = logs s) /\
  (forall id s,
     environments (deleteApiKey id s) = environments s /\
     selectedEnvironmentId (deleteApiKey id s) = selectedEnvironmentId s /\
     webhooks (deleteApiKey id s) = webhooks s /\ logs (deleteApiKey id s) = logs s) /\
  (forall webhook s,
     environments (addWebhook webhook s) = environments s /\
     selectedEnvironmentId (addWebhook webhook s) = selectedEnvironmentId s /\
     apiKeys (addWebhook webhook s) = apiKeys s /\ logs (addWebhook webhook s) = logs s) /\
  (forall webhook s,
     environments (updateWebhook webhook s) = environments s /\
     selectedEnvironmentId (updateWebhook webhook s) = selectedEnvironmentId s /\
     apiKeys (updateWebhook webhook s) = apiKeys s /\ logs (updateWebhook webhook s) = logs s) /\
  (forall id s,
     environments (deleteWebhook id s) = environments s /\
     selectedEnvironmentId (deleteWebhook id s) = selectedEnvironmentId s /\
     apiKeys (deleteWebhook id s) = apiKeys s /\ logs (deleteWebhook id s) = logs s) /\
  countsAgree tidyStore = true /\
  countsAgree (addApiKey (key_of "key-10" "env-9" Key.Active ["admin"]) tidyStore) = false /\
  countsAgree (updateApiKey (key_of "key-9" "env-1" Key.Active ["read:data"]) tidyStore)
    = false /\
  countsAgree (deleteApiKey "key-9" tidyStore) = false /\
  countsAgree (addWebhook (hook_of "hook-10" "env-9") tidyStore) = false /\
  countsAgree (updateWebhook (hook_of "hook-9" "env-1") tidyStore) = false /\
  countsAgree (deleteWebhook "hook-9" tidyStore) = false.
Proof.
  repeat split; vm_compute; reflexivity.
Qed.

(** ** The request simulator *)

Arguments randomInt_of : simpl never.
Arguments Qminus : simpl never.

Lemma method_eqb_eq (a b : Endpoint.Method) : Endpoint.method_eqb a b = true <-> a = b.
Proof. destruct a, b; simpl; split; intros H; try reflexivity; discriminate. Qed.

Lemma find_path_None (catalog : list Endpoint.t) (path : string) :
  (forall ep, In ep catalog -> Endpoint.path ep <> path) ->
  find (fun ep => String.eqb (Endpoint.path ep) path) catalog = None.
Proof.
  induction catalog as [|ep l IH]; simpl; intros H; [reflexivity|].
  destruct (String.eqb_spec (Endpoint.path ep) path) as [Heq|_].
  - exfalso. apply (H ep); auto.
  - apply IH. intros ep' Hin. apply H. auto.
Qed.

Lemma truthy_nonempty (s : string) : s <> "" -> truthy s = true.
Proof.
  intros H. unfold truthy. destruct (String.eqb_spec s ""); [contradiction | reflexivity].
Qed.

Lemma key_active_iff (k : Key.t) : key_active k = true <-> Key.status k = Key.Active.
Proof.
  unfold key_active. destruct (Key.status k); split; intros H; try reflexivity; discriminate.
Qed.

Ltac simulate :=
  unfold handleSendRequest, handleSendRequestOn, tryCatchFinally, tryBlock, bind,
    getRandomInt, setTimeout_await, performance_now, Math_random, ret;
  simpl.

Ltac refused :=
  unfold refuse, bind, performance_now, ret; simpl.

Section Simulator.

Variable JSON_stringify : Json -> nat -> string.
Variable toString36 : Q -> string.

Local Abbreviation handle := (handleSendRequestOn JSON_stringify toString36).
Local Abbreviation attempt := (tryBlock JSON_stringify toString36).

(** C4. A path that no endpoint of the catalog has is answered with
    status 404, the body [{message: "Mock endpoint not found",
    details: "Path: <path>, Method: <method>"}] and the matching error
    text, for every method, key collection and selected key. *)
Theorem unknown_path_is_404 (catalog : list Endpoint.t) (apiKeys : list Key.t)
    (method : Endpoint.Method) (path selectedAPIKeyId : string)
    (st : TesterState) (w : World) :
  (forall ep, In ep catalog -> Endpoint.path ep <> path) ->
  let out := fst (handle catalog apiKeys method path selectedAPIKeyId st w) in
  statusCode out = Some 404 /\
  response out =
    JSON_stringify
      (JObj [("message", JStr "Mock endpoint not found");
             ("details",
              JStr ("Path: " ++ path ++ ", Method: " ++ Endpoint.methodName method))]) 2 /\
  error out = Some "Mock endpoint not found.".
Proof.
  intros Hnone out. subst out.
  apply find_path_None in Hnone.
  simulate. rewrite Hnone. refused. auto.
Qed.

(** C5. When the endpoint found for the path declares another method
    than the one requested, the answer is status 405 with the body
    [{message: "Method Not Allowed", details: "Expected <declared>, got
    <requested>"}], whatever the keys in the store and the selected
    key: the key is not looked at. *)
Theorem wrong_method_is_405 (catalog : list Endpoint.t) (apiKeys : list Key.t)
    (method : Endpoint.Method) (path selectedAPIKeyId : string)
    (st : TesterState) (w : World) (mockEndpoint : Endpoint.t) :
  find (fun ep => String.eqb (Endpoint.path ep) path) catalog = Some mockEndpoint ->
  Endpoint.method mockEndpoint <> method ->
  let out := fst (handle catalog apiKeys method path selectedAPIKeyId st w) in
  statusCode out = Some 405 /\
  response out =
    JSON_stringify
      (JObj [("message", JStr "Method Not Allowed");
             ("details",
              JStr ("Expected " ++ Endpoint.methodName (Endpoint.method mockEndpoint)
                    ++ ", got " ++ Endpoint.methodName method))]) 2 /\
  error out = Some "Method Not Allowed.".
Proof.
  intros Hfind Hne out. subst out.
  simulate. rewrite Hfind.
  destruct (Endpoint.method_eqb method (Endpoint.method mockEndpoint)) eqn:Hm.
  - apply method_eqb_eq in Hm. congruence.
  - simpl. refused. auto.
Qed.

(** C6. On an authenticated endpoint whose method matches: with no key
    selected the answer is 401 with the "API Key required" body; with a
    key id selected that no key of the store has, or whose key is not
    Active, it is 401 with the "Invalid or revoked API Key" body.  In
    both cases the [try] block is left by [return], not by an
    exception. *)
Theorem missing_or_invalid_key_is_401 (catalog : list Endpoint.t) (apiKeys : list Key.t)
    (method : Endpoint.Method) (path selectedAPIKeyId : string)
    (st : TesterState) (w : World) (mockEndpoint : Endpoint.t) :
  find (fun ep => String.eqb (Endpoint.path ep) path) catalog = Some mockEndpoint ->
  Endpoint.method mockEndpoint = method ->
  Endpoint.isAuthenticated mockEndpoint = true ->
  let out := fst (handle catalog apiKeys method path selectedAPIKeyId st w) in
  let usedKey := find (fun k => String.eqb (Key.id k) selectedAPIKeyId) apiKeys in
  (selectedAPIKeyId = "" ->
     (forall startTime st0 w0,
        fst (fst (attempt catalog apiKeys method path selectedAPIKeyId startTime st0 w0))
        = Return) /\
     statusCode out = Some 401 /\
     response out =
       JSON_stringify
         (JObj [("message", JStr "Unauthorized"); ("details", JStr "API Key required")]) 2 /\
     error out = Some "Unauthorized: API Key required.") /\
  (selectedAPIKeyId <> "" ->
   usedKey = None \/ (exists k, usedKey = Some k /\ Key.status k <> Key.Active) ->
     (forall startTime st0 w0,
        fst (fst (attempt catalog apiKeys method path selectedAPIKeyId startTime st0 w0))
        = Return) /\
     statusCode out = Some 401 /\
     response out =
       JSON_stringify
         (JObj [("message", JStr "Unauthorized");
                ("details", JStr "Invalid or revoked API Key")]) 2 /\
     error out = Some "Unauthorized: Invalid API Key.").
Proof.
  intros Hfind Hm Hauth out usedKey. subst out usedKey.
  assert (Hmeq : Endpoint.method_eqb method (Endpoint.method mockEndpoint) = true)
    by (apply method_eqb_eq; congruence).
  split.
  - intros ->. split; [intros startTime st0 w0|];
      simulate; rewrite Hfind, Hmeq, Hauth; simpl; refused; auto.
  - intros Hsel Hbad. apply truthy_nonempty in Hsel.
    destruct Hbad as [Hk | (k & Hk & Hstatus)].
    + split; [intros startTime st0 w0|];
        simulate; rewrite Hfind, Hmeq, Hauth, Hsel, Hk; simpl; refused; auto.
    + assert (Hact : key_active k = false).
      { destruct (key_active k) eqn:Ha; [|reflexivity].
        apply key_active_iff in Ha. contradiction. }
      split; [intros startTime st0 w0|];
        simulate; rewrite Hfind, Hmeq, Hauth, Hsel, Hk, Hact; simpl; refused; auto.
Qed.

(** C3. On an authenticated endpoint declaring the requested method,
    when that method is POST, PUT, DELETE or PATCH and the selected key
    exists and is Active but has neither 'write:data' nor 'admin', the
    answer is status 403 with the insufficient-permissions body. *)
Theorem write_without_permission_is_403 (catalog : list Endpoint.t) (apiKeys : list Key.t)
    (method : Endpoint.Method) (path selectedAPIKeyId : string)
    (st : TesterState) (w : World) (mockEndpoint : Endpoint.t) (usedKey : Key.t) :
  find (fun ep => String.eqb (Endpoint.path ep) path) catalog = Some mockEndpoint ->
  Endpoint.method mockEndpoint = method ->
  Endpoint.isAuthenticated mockEndpoint = true ->
  method <> Endpoint.GET ->
  selectedAPIKeyId <> "" ->
  find (fun k => String.eqb (Key.id k) selectedAPIKeyId) apiKeys = Some usedKey ->
  Key.status usedKey = Key.Active ->
  ~ In "write:data" (Key.permissions usedKey) ->
  ~ In "admin" (Key.permissions usedKey) ->
  let out := fst (handle catalog apiKeys method path selectedAPIKeyId st w) in
  statusCode out = Some 403 /\
  response out =
    JSON_stringify
      (JObj [("message", JStr "Forbidden");
             ("details", JStr "API Key does not have required permissions")]) 2 /\
  error out = Some "Forbidden: Insufficient permissions.".
Proof.
  intros Hfind Hm Hauth Hwrite Hsel Hk Hstatus Hnw Hna out. subst out.
  assert (Hmeq : Endpoint.method_eqb method (Endpoint.method mockEndpoint) = true)
    by (apply method_eqb_eq; congruence).
  apply truthy_nonempty in Hsel. apply key_active_iff in Hstatus.
  assert (Hforbidden : forbidden method usedKey = true).
  { unfold forbidden, has_permission.
    replace (existsb (String.eqb "admin") (Key.permissions usedKey)) with false.
    replace (existsb (String.eqb "write:data") (Key.permissions usedKey)) with false.
    - destruct method; [contradiction | reflexivity ..].
    - symmetry. apply not_true_is_false. intros H. apply existsb_exists in H.
      destruct H as (p & Hin & Hp). apply String.eqb_eq in Hp. subst p. contradiction.
    - symmetry. apply not_true_is_false. intros H. apply existsb_exists in H.
      destruct H as (p & Hin & Hp). apply String.eqb_eq in Hp. subst p. contradiction. }
  simulate. rewrite Hfind, Hmeq, Hauth, Hsel, Hk, Hstatus, Hforbidden. simpl. refused. auto.
Qed.

End Simulator.

Lemma unknown_path_is_404_witness :
  (forall ep, In ep MOCK_API_ENDPOINTS -> Endpoint.path ep <> "/nonexistent") /\
  statusCode
    (fst (handleSendRequest sample_stringify sample_toString36 [adminKey] Endpoint.DELETE
            "/nonexistent" "key-admin" idleTester sample_world)) = Some 404.
Proof.
  assert (H : forall ep, In ep MOCK_API_ENDPOINTS -> Endpoint.path ep <> "/nonexistent").
  { intros ep Hin. simpl in Hin.
    repeat (destruct Hin as [<-|Hin]; [discriminate|]). contradiction. }
  split; [exact H|].
  apply (@unknown_path_is_404 sample_stringify sample_toString36 MOCK_API_ENDPOINTS
            [adminKey] Endpoint.DELETE "/nonexistent" "key-admin" idleTester sample_world H).
Defined.

Lemma wrong_method_is_405_witness :
  statusCode
    (fst (handleSendRequest sample_stringify sample_toString36 [adminKey] Endpoint.GET
            "/orders" "key-admin" idleTester sample_world)) = Some 405.
Proof.
  eapply (@wrong_method_is_405 sample_stringify sample_toString36 MOCK_API_ENDPOINTS
            [adminKey] Endpoint.GET "/orders" "key-admin" idleTester sample_world).
  - reflexivity.
  - simpl. discriminate.
Defined.

Lemma missing_or_invalid_key_is_401_witness :
  statusCode
    (fst (handleSendRequest sample_stringify sample_toString36 [revokedKey] Endpoint.GET
            "/users/{id}" "key-revoked" idleTester sample_world)) = Some 401.
Proof.
  eapply (@missing_or_invalid_key_is_401 sample_stringify sample_toString36
            MOCK_API_ENDPOINTS [revokedKey] Endpoint.GET "/users/{id}" "key-revoked"
            idleTester sample_world).
  - reflexivity.
  - reflexivity.
  - reflexivity.
  - discriminate.
  - right. exists revokedKey. split; [reflexivity | simpl; discriminate].
Defined.

Lemma write_without_permission_is_403_witness :
  statusCode
    (fst (handleSendRequest sample_stringify sample_toString36 [readKey] Endpoint.POST
            "/users" "key-read" idleTester sample_world)) = Some 403.
Proof.
  eapply (@write_without_permission_is_403 sample_stringify sample_toString36
            MOCK_API_ENDPOINTS [readKey] Endpoint.POST "/users" "key-read"
            idleTester sample_world _ readKey).
  - reflexivity.
  - reflexivity.
  - reflexivity.
  - discriminate.
  - discriminate.
  - reflexivity.
  - reflexivity.
  - simpl. intros [H|[]]. discriminate.
  - simpl. intros [H|[]]. discriminate.
Defined.

(** *** The admin permission *)

Section Admin.

Variable JSON_stringify : Json -> nat -> string.
Variable toString36 : Q -> string.

(** With 'admin' among the permissions, the test still refuses a GET
    when 'read:data' is missing: only the write half of the test is
    guarded by the admin check. *)
Lemma forbidden_with_admin (method : Endpoint.Method) (usedKey : Key.t) :
  has_permission usedKey "admin" = true ->
  forbidden method usedKey = is_get method && negb (has_permission usedKey "read:data").
Proof.
  intros Hadmin. unfold forbidden. rewrite Hadmin. reflexivity.
Qed.

Lemma succeed_status (method : Endpoint.Method) (path : string) (st : TesterState)
    (w : World) :
  fst (fst (succeed JSON_stringify toString36 method path st w)) = Normal /\
  statusCode (snd (fst (succeed JSON_stringify toString36 method path st w)))
  = Some (match method with
          | Endpoint.POST => 201
          | Endpoint.DELETE => 204
          | Endpoint.GET | Endpoint.PUT | Endpoint.PATCH => 200
          end) /\
  error (snd (fst (succeed JSON_stringify toString36 method path st w))) = error st.
Proof.
  unfold succeed, bind. destruct method; simpl.
  - destruct (includes path "{id}"); simpl; [auto|].
    unfold getRandomInt, bind, Math_random, ret. simpl.
    destruct (mapSim mockItem _ _) as [items w']. simpl. auto.
  - unfold generateUUID, bind, Math_random, ret. simpl. auto.
  - auto.
  - auto.
  - auto.
Qed.

(** An admin key is let through on every write method. *)
Lemma admin_write_succeeds (catalog : list Endpoint.t) (apiKeys : list Key.t)
    (method : Endpoint.Method) (path selectedAPIKeyId : string)
    (st : TesterState) (w : World) (mockEndpoint : Endpoint.t) (usedKey : Key.t) :
  find (fun ep => String.eqb (Endpoint.path ep) path) catalog = Some mockEndpoint ->
  Endpoint.method mockEndpoint = method ->
  Endpoint.isAuthenticated mockEndpoint = true ->
  method <> Endpoint.GET ->
  selectedAPIKeyId <> "" ->
  find (fun k => String.eqb (Key.id k) selectedAPIKeyId) apiKeys = Some usedKey ->
  Key.status usedKey = Key.Active ->
  has_permission usedKey "admin" = true ->
  let out := fst (handleSendRequestOn JSON_stringify toString36 catalog apiKeys method path
                    selectedAPIKeyId st w) in
  statusCode out = Some (match method with
                         | Endpoint.POST => 201
                         | Endpoint.DELETE => 204
                         | _ => 200
                         end) /\
  error out = None.
Proof.
  intros Hfind Hm Hauth Hwrite Hsel Hk Hstatus Hadmin out. subst out.
  assert (Hmeq : Endpoint.method_eqb method (Endpoint.method mockEndpoint) = true)
    by (apply method_eqb_eq; congruence).
  apply truthy_nonempty in Hsel. apply key_active_iff in Hstatus.
  assert (Hok : forbidden method usedKey = false).
  { rewrite forbidden_with_admin by assumption.
    destruct method; [contradiction | reflexivity ..]. }
  simulate. rewrite Hfind, Hmeq, Hauth, Hsel, Hk, Hstatus, Hok. simpl.
  match goal with
  | |- context [succeed _ _ _ _ ?s ?x] =>
      destruct (succeed_status method path s x) as (Hc & Hs & He);
      destruct (succeed JSON_stringify toString36 method path s x) as [[c st'] w']
  end.
  simpl in *. subst c. simpl. split; [|exact He].
  rewrite Hs. destruct method; reflexivity.
Qed.

(** On GET, an admin key is refused exactly when it lacks 'read:data'. *)
Lemma admin_GET_needs_read (catalog : list Endpoint.t) (apiKeys : list Key.t)
    (path selectedAPIKeyId : string) (st : TesterState) (w : World)
    (mockEndpoint : Endpoint.t) (usedKey : Key.t) :
  find (fun ep => String.eqb (Endpoint.path ep) path) catalog = Some mockEndpoint ->
  Endpoint.method mockEndpoint = Endpoint.GET ->
  Endpoint.isAuthenticated mockEndpoint = true ->
  selectedAPIKeyId <> "" ->
  find (fun k => String.eqb (Key.id k) selectedAPIKeyId) apiKeys = Some usedKey ->
  Key.status usedKey = Key.Active ->
  has_permission usedKey "admin" = true ->
  has_permission usedKey "read:data" = false ->
  statusCode (fst (handleSendRequestOn JSON_stringify toString36 catalog apiKeys
                     Endpoint.GET path selectedAPIKeyId st w)) = Some 403.
Proof.
  intros Hfind Hm Hauth Hsel Hk Hstatus Hadmin Hread.
  apply truthy_nonempty in Hsel. apply key_active_iff in Hstatus.
  assert (Hforbidden : forbidden Endpoint.GET usedKey = true).
  { rewrite forbidden_with_admin by assumption. rewrite Hread. reflexivity. }
  simulate. rewrite Hfind, Hm, Hauth, Hsel, Hk, Hstatus, Hforbidden. simpl.
  refused. reflexivity.
Qed.

(** C2, on the code.  An Active key whose only permission is 'admin',
    used for [GET /users/{id}], is refused with status 403: the admin
    permission does not carry a GET. *)
Theorem admin_only_key_GET_is_403 (st : TesterState) (w : World) :
  let out := fst (handleSendRequest JSON_stringify toString36 [adminKey] Endpoint.GET
                    "/users/{id}" "key-admin" st w) in
  Key.status adminKey = Key.Active /\
  In "admin" (Key.permissions adminKey) /\
  statusCode out = Some 403 /\
  response out =
    JSON_stringify
      (JObj [("message", JStr "Forbidden");
             ("details", JStr "API Key does not have required permissions")]) 2 /\
  error out = Some "Forbidden: Insufficient permissions.".
Proof.
  intros out. subst out.
  split; [reflexivity|]. split; [simpl; auto|].
  simulate. refused. auto.
Qed.

End Admin.

(** ** Random draws *)

Lemma Qfloor_unique (x : Q) (k : Z) :
  (inject_Z k <= x)%Q -> (x < inject_Z (k + 1))%Q -> Qfloor x = k.
Proof.
  intros Hlo Hhi.
  assert (H1 : k <= Qfloor x).
  { rewrite <- (Qfloor_Z k). apply Qfloor_resp_le. exact Hlo. }
  assert (H2 : Qfloor x < k + 1).
  { rewrite Zlt_Qlt. apply Qle_lt_trans with x; [apply Qfloor_le | exact Hhi]. }
  lia.
Qed.

Lemma Qfloor_iff (x : Q) (k : Z) :
  Qfloor x = k <-> (inject_Z k <= x)%Q /\ (x < inject_Z (k + 1))%Q.
Proof.
  split.
  - intros <-. split; [apply Qfloor_le | apply Qlt_floor].
  - intros [Hlo Hhi]. now apply Qfloor_unique.
Qed.

Lemma inject_Z_pos (n : Z) : 0 < n -> (0 < inject_Z n)%Q.
Proof. intros H. change (inject_Z 0 < inject_Z n)%Q. rewrite <- Zlt_Qlt. exact H. Qed.

Lemma inject_Z_pos_inv (n : Z) : (0 < inject_Z n)%Q -> 0 < n.
Proof. intros H. change (inject_Z 0 < inject_Z n)%Q in H. rewrite <- Zlt_Qlt in H. exact H. Qed.

Lemma inject_Z_nonneg (n : Z) : 0 <= n -> (0 <= inject_Z n)%Q.
Proof. intros H. change (inject_Z 0 <= inject_Z n)%Q. rewrite <- Zle_Qle. exact H. Qed.

(** The value drawn is [v] exactly when the random number falls in the
    [v - min]-th of the [max - min + 1] equal slices of the unit
    interval. *)
Lemma randomInt_of_slice (min max : Z) (r : Q) (v : Z) :
  randomInt_of min max r = v <->
  (inject_Z (v - min) <= r * inject_Z (max - min + 1))%Q /\
  (r * inject_Z (max - min + 1) < inject_Z (v - min + 1))%Q.
Proof.
  unfold randomInt_of. rewrite <- Qfloor_iff. lia.
Qed.

Lemma randomInt_of_range (min max : Z) (r : Q) :
  min <= max -> (0 <= r)%Q -> (r < 1)%Q ->
  min <= randomInt_of min max r <= max.
Proof.
  intros Hmm H0 H1.
  destruct (proj1 (randomInt_of_slice min max r _) eq_refl) as [Hlo Hhi].
  set (v := randomInt_of min max r) in *.
  set (n := max - min + 1) in *.
  assert (Hn : (0 < inject_Z n)%Q) by (apply inject_Z_pos; subst n; lia).
  split.
  - assert (H : (0 < inject_Z (v - min + 1))%Q).
    { apply Qle_lt_trans with (r * inject_Z n)%Q; [|exact Hhi].
      apply Qmult_le_0_compat; [exact H0 | apply Qlt_le_weak, Hn]. }
    apply inject_Z_pos_inv in H. lia.
  - assert (H : (inject_Z (v - min) < inject_Z n)%Q).
    { apply Qle_lt_trans with (r * inject_Z n)%Q; [exact Hlo|].
      rewrite <- (Qmult_1_l (inject_Z n)) at 2.
      apply Qmult_lt_compat_r; assumption. }
    rewrite <- Zlt_Qlt in H. subst n. lia.
Qed.

(** Every value of the range is drawn from some random number. *)
Lemma randomInt_of_onto (min max v : Z) :
  min <= v <= max ->
  exists r, (0 <= r)%Q /\ (r < 1)%Q /\ randomInt_of min max r = v.
Proof.
  intros Hv.
  set (n := max - min + 1).
  assert (Hn : (0 < inject_Z n)%Q) by (apply inject_Z_pos; subst n; lia).
  assert (Hn0 : ~ (inject_Z n == 0)%Q) by (intros E; rewrite E in Hn; discriminate).
  exists (inject_Z (v - min) / inject_Z n)%Q.
  assert (Hr : (inject_Z (v - min) / inject_Z n * inject_Z n == inject_Z (v - min))%Q).
  { rewrite Qmult_comm. apply Qmult_div_r. exact Hn0. }
  split; [|split].
  - apply Qle_shift_div_l; [exact Hn|]. rewrite Qmult_0_l.
    apply inject_Z_nonneg. lia.
  - apply Qlt_shift_div_r; [exact Hn|]. rewrite Qmult_1_l, <- Zlt_Qlt. subst n. lia.
  - apply randomInt_of_slice. fold n. rewrite Hr. split.
    + apply Qle_refl.
    + rewrite <- Zlt_Qlt. lia.
Qed.

(** ** What a run does to the world *)

Lemma draws_only_ret {A} (a : A) : draws_only (ret a).
Proof. intros w. simpl. tauto. Qed.

Lemma draws_only_Math_random : draws_only Math_random.
Proof. intros w. simpl. tauto. Qed.

Lemma draws_only_bind {A B} (c : Sim A) (k : A -> Sim B) :
  draws_only c -> (forall a, draws_only (k a)) -> draws_only (bind c k).
Proof.
  intros Hc Hk w. unfold bind.
  specialize (Hc w). destruct (c w) as [a w1]. simpl in Hc.
  specialize (Hk a w1). destruct (k a w1) as [b w2]. simpl in *.
  destruct Hc as (? & ? & ? & ? & ? & ?). destruct Hk as (? & ? & ? & ? & ? & ?).
  repeat split; congruence.
Qed.

Lemma draws_only_mapSim {A B} (f : A -> Sim B) (l : list A) :
  (forall a, draws_only (f a)) -> draws_only (mapSim f l).
Proof.
  intros Hf. induction l as [|a l IH]; simpl.
  - apply draws_only_ret.
  - apply draws_only_bind; [apply Hf|]. intros b.
    apply draws_only_bind; [exact IH|]. intros bs. apply draws_only_ret.
Qed.

Create HintDb draws.
#[local] Hint Resolve draws_only_ret draws_only_Math_random : draws.
#[local] Hint Extern 2 (draws_only (bind _ _)) =>
  apply draws_only_bind; [|intros ?] : draws.
#[local] Hint Extern 2 (draws_only (mapSim _ _)) =>
  apply draws_only_mapSim; intros ? : draws.

Lemma draws_only_getRandomInt (min max : Z) : draws_only (getRandomInt min max).
Proof. unfold getRandomInt. auto with draws. Qed.

Lemma draws_only_getRandomFloat (min max : Q) : draws_only (getRandomFloat min max).
Proof. unfold getRandomFloat. auto with draws. Qed.

Lemma draws_only_generateUUID (toString36 : Q -> string) :
  draws_only (generateUUID toString36).
Proof. unfold generateUUID. auto with draws. Qed.

#[local] Hint Resolve draws_only_getRandomInt draws_only_getRandomFloat
  draws_only_generateUUID : draws.

Lemma draws_only_mockItem (i : nat) : draws_only (mockItem i).
Proof. unfold mockItem. auto with draws. Qed.

#[local] Hint Resolve draws_only_mockItem : draws.

Section Latency.

Variable JSON_stringify : Json -> nat -> string.
Variable toString36 : Q -> string.

Lemma draws_only_succeed (method : Endpoint.Method) (path : string) (st : TesterState) :
  draws_only (succeed JSON_stringify toString36 method path st).
Proof.
  unfold succeed. apply draws_only_bind.
  - destruct method; [destruct (includes path "{id}")| | | |]; auto 6 with draws.
  - intros [mockResponse mockStatusCode]. apply draws_only_ret.
Qed.

Lemma tryBlock_one_timer (catalog : list Endpoint.t) (apiKeys : list Key.t)
    (method : Endpoint.Method) (path selectedAPIKeyId : string)
    (startTime : Q) (st : TesterState) :
  one_timer delay_of
    (tryBlock JSON_stringify toString36 catalog apiKeys method path selectedAPIKeyId
       startTime st).
Proof.
  intros w.
  unfold tryBlock, bind, getRandomInt, setTimeout_await, Math_random, ret, delay_of.
  simpl.
  repeat match goal with
  | |- context [match find ?f ?l with _ => _ end] => destruct (find f l)
  | |- context [if ?b then _ else _] => destruct b
  end;
  first
    [ match goal with
      | |- context [succeed _ _ ?m ?p ?s ?x] =>
          pose proof (draws_only_succeed m p s x) as H;
          destruct (succeed JSON_stringify toString36 m p s x) as [r w'];
          simpl in H; simpl;
          destruct H as (_ & _ & _ & Htape & Hpos & Htimers);
          rewrite Htape, Hpos, Htimers; repeat split; auto
      end
    | unfold refuse, bind, performance_now, ret; simpl;
      repeat split; auto ].
Qed.

(** The handler reads the clock, runs the [try] block, passes an
    exception to [catch], and ends in [finally]. *)
Lemma handleSendRequestOn_run (catalog : list Endpoint.t) (apiKeys : list Key.t)
    (method : Endpoint.Method) (path selectedAPIKeyId : string)
    (st : TesterState) (w : World) :
  let startTime := perf_tape w (perf_pos w) in
  let r := tryBlock JSON_stringify toString36 catalog apiKeys method path selectedAPIKeyId
             startTime
             (setError None (setResponseTime None (setStatusCode None
                (setResponse "" (setIsLoading true st)))))
             (snd (performance_now w)) in
  handleSendRequestOn JSON_stringify toString36 catalog apiKeys method path
    selectedAPIKeyId st w
  = finallyBlock startTime
      match fst (fst r) with
      | Throw message => catchBlock JSON_stringify message (snd (fst r))
      | Normal | Return => snd (fst r)
      end
      (snd r).
Proof.
  intros startTime r. subst r startTime.
  unfold handleSendRequestOn, tryCatchFinally, bind. simpl.
  match goal with
  | |- context [let (_, _) := ?t in _] => destruct t as [[c st'] w2]
  end.
  reflexivity.
Qed.

(** C9. Every run of the handler first waits for a delay drawn by
    [getRandomInt(100, 1500)], which lies between 100 and 1500 and takes
    each of the 1401 values on a slice of the unit interval of the same
    width 1/1401 (so a uniform random number gives a uniform delay); and
    whatever the branch (404, 405, 401, 403 or an answer), the response
    time is set at the end to the last clock reading minus the reading
    at the start.  The same holds when the block throws: the handler
    reports 500 and still sets the response time. *)
Theorem latency_always_attached (catalog : list Endpoint.t) (apiKeys : list Key.t)
    (method : Endpoint.Method) (path selectedAPIKeyId : string)
    (st : TesterState) (w : World) :
  fair w ->
  let run := handleSendRequestOn JSON_stringify toString36 catalog apiKeys method path
               selectedAPIKeyId st w in
  timers (snd run) = delay_of w :: timers w /\
  100 <= delay_of w <= 1500 /\
  (perf_pos w < pred (perf_pos (snd run)))%nat /\
  responseTime (fst run)
  = Some (perf_tape w (pred (perf_pos (snd run))) - perf_tape w (perf_pos w))%Q /\
  (forall message st0 startTime w0,
     let failed :=
       tryCatchFinally JSON_stringify (ret (Throw message, st0)) startTime w0 in
     statusCode (fst failed) = Some 500 /\
     responseTime (fst failed) = Some (perf_tape w0 (perf_pos w0) - startTime)%Q) /\
  (forall r v,
     randomInt_of 100 1500 r = v <->
     (inject_Z (v - 100) <= r * inject_Z 1401)%Q /\
     (r * inject_Z 1401 < inject_Z (v - 99))%Q) /\
  (forall v, 100 <= v <= 1500 ->
     exists r, (0 <= r)%Q /\ (r < 1)%Q /\ randomInt_of 100 1500 r = v).
Proof.
  intros Hfair run.
  assert (Hrun :
    timers (snd run) = delay_of w :: timers w /\
    (perf_pos w < pred (perf_pos (snd run)))%nat /\
    responseTime (fst run)
    = Some (perf_tape w (pred (perf_pos (snd run))) - perf_tape w (perf_pos w))%Q).
  { subst run.
    pose proof (handleSendRequestOn_run catalog apiKeys method path selectedAPIKeyId st w)
      as Erun.
    cbv zeta in Erun. rewrite Erun. clear Erun.
    match goal with
    | |- context [tryBlock _ _ ?c ?k ?m ?p ?i ?t0 ?s0 ?w1] =>
        pose proof (@tryBlock_one_timer c k m p i t0 s0 w1) as H;
        destruct (tryBlock JSON_stringify toString36 c k m p i t0 s0 w1)
          as [[completion st'] w2]
    end.
    unfold delay_of in *. simpl in H. destruct H as (Htape & Hpos & Htimers).
    unfold finallyBlock, bind, performance_now, ret. simpl.
    rewrite Htape. repeat split; [exact Htimers | lia]. }
  destruct Hrun as (Htimers & Hpos & Htime).
  split; [exact Htimers|].
  split; [apply randomInt_of_range; [lia | apply Hfair | apply Hfair]|].
  split; [exact Hpos|].
  split; [exact Htime|].
  split; [|split].
  - intros message st0 startTime w0. simpl. split; reflexivity.
  - intros r v. rewrite randomInt_of_slice.
    replace (v - 100 + 1) with (v - 99) by lia. reflexivity.
  - intros v Hv. apply randomInt_of_onto. exact Hv.
Qed.

End Latency.

Lemma fair_sample_world : fair sample_world.
Proof. intros i. simpl. split; [discriminate | reflexivity]. Qed.

Lemma latency_always_attached_witness :
  fair sample_world /\
  timers
    (snd (handleSendRequest sample_stringify sample_toString36 [readKey] Endpoint.GET
            "/nonexistent" "" idleTester sample_world))
  = delay_of sample_world :: timers sample_world /\
  100 <= delay_of sample_world <= 1500.
Proof.
  split; [exact fair_sample_world|].
  pose proof (@latency_always_attached sample_stringify sample_toString36
                MOCK_API_ENDPOINTS [readKey] Endpoint.GET "/nonexistent" "" idleTester
                sample_world fair_sample_world) as H.
  cbv zeta in H. destruct H as (Htimers & Hrange & _).
  split; [exact Htimers | exact Hrange].
Defined.

(** ** Sorting and order-preserving list operations *)

Arguments randomItem_of : simpl never.
Arguments toFixed2 : simpl never.

Lemma insertBy_Permutation {T} (cmp : T -> T -> Z) (x : T) (l : list T) :
  Permutation (insertBy cmp x l) (x :: l).
Proof.
  induction l as [|y l IH]; simpl.
  - apply Permutation_refl.
  - destruct (cmp x y <=? 0).
    + apply Permutation_refl.
    + apply perm_trans with (y :: x :: l).
      * apply perm_skip. exact IH.
      * apply perm_swap.
Qed.

Lemma array_sort_Permutation {T} (cmp : T -> T -> Z) (l : list T) :
  Permutation (array_sort cmp l) l.
Proof.
  induction l as [|x l IH]; simpl.
  - apply perm_nil.
  - apply perm_trans with (x :: array_sort cmp l).
    + apply insertBy_Permutation.
    + apply perm_skip. exact IH.
Qed.

Lemma array_sort_Forall {T} (P : T -> Prop) (cmp : T -> T -> Z) (l : list T) :
  Forall P l -> Forall P (array_sort cmp l).
Proof.
  intros H. apply Permutation_Forall with l; [|exact H].
  apply Permutation_sym, array_sort_Permutation.
Qed.

Lemma insertBy_newestFirst (x : Log.t) (l : list Log.t) :
  newestFirst l -> newestFirst (insertBy newestFirst_cmp x l).
Proof.
  unfold newestFirst.
  induction 1 as [|y l Hl IH Hy]; simpl.
  - constructor; constructor.
  - unfold newestFirst_cmp at 1.
    destruct (Z.leb_spec (Log.timestamp y - Log.timestamp x) 0) as [Hle|Hgt].
    + constructor; [constructor; assumption|].
      constructor; [lia|].
      eapply Forall_impl; [|exact Hy]. simpl. intros b Hb. lia.
    + constructor; [exact IH|].
      apply Permutation_Forall with (x :: l).
      * apply Permutation_sym, insertBy_Permutation.
      * constructor; [lia | exact Hy].
Qed.

Lemma array_sort_newestFirst (l : list Log.t) :
  newestFirst (array_sort newestFirst_cmp l).
Proof.
  induction l as [|x l IH]; simpl.
  - constructor.
  - apply insertBy_newestFirst. exact IH.
Qed.

Lemma filter_StronglySorted {T} (R : T -> T -> Prop) (p : T -> bool) (l : list T) :
  StronglySorted R l -> StronglySorted R (filter p l).
Proof.
  induction 1 as [|x l Hl IH Hx]; simpl; [constructor|].
  destruct (p x); [|exact IH].
  constructor; [exact IH|].
  apply Forall_forall. intros y Hy. apply filter_In in Hy.
  rewrite Forall_forall in Hx. apply Hx. tauto.
Qed.

Lemma firstn_StronglySorted {T} (R : T -> T -> Prop) (n : nat) (l : list T) :
  StronglySorted R l -> StronglySorted R (firstn n l).
Proof.
  intros H. revert n. induction H as [|x l Hl IH Hx]; intros [|n]; simpl; try constructor.
  - apply IH.
  - apply Forall_forall. intros y Hy.
    rewrite Forall_forall in Hx. apply Hx.
    rewrite <- (firstn_skipn n l). apply in_or_app. left. exact Hy.
Qed.

Lemma slice0_StronglySorted {T} (R : T -> T -> Prop) (stop : Z) (l : list T) :
  StronglySorted R l -> StronglySorted R (slice0 stop l).
Proof.
  intros H. unfold slice0. destruct (stop <? 0); now apply firstn_StronglySorted.
Qed.

(** ** The generated logs *)

Section Logs.

Variable toString36 : Q -> string.

Lemma generateMockLog_environmentId (envId : string) (w : World) :
  Log.environmentId (fst (generateMockLog toString36 envId w)) = envId.
Proof.
  unfold generateMockLog, bind, getRandomItem, getRandomInt, generateUUID, bind,
    Math_random, Date_now, ret.
  simpl.
  repeat match goal with
  | |- context [if ?b then _ else _] => destruct b; simpl
  | |- context [match ?o with Some _ => _ | None => _ end] => destruct o; simpl
  end;
  reflexivity.
Qed.

Lemma generateMockLogs_loop_environmentId (envId : string) (count : nat) (w : World) :
  Forall (fun log => Log.environmentId log = envId)
         (fst (generateMockLogs_loop toString36 envId count w)).
Proof.
  revert w. induction count as [|n IH]; intros w; simpl.
  - constructor.
  - unfold bind.
    pose proof (generateMockLog_environmentId envId w) as He.
    destruct (generateMockLog toString36 envId w) as [entry w1].
    specialize (IH w1).
    destruct (generateMockLogs_loop toString36 envId n w1) as [rest w2].
    simpl in *. constructor; assumption.
Qed.

Lemma generateMockLogs_environmentId (envId : string) (count : Z) (w : World) :
  Forall (fun log => Log.environmentId log = envId)
         (fst (generateMockLogs toString36 envId count w)).
Proof.
  unfold generateMockLogs, bind.
  pose proof (generateMockLogs_loop_environmentId envId (Z.to_nat count) w) as H.
  destruct (generateMockLogs_loop toString36 envId (Z.to_nat count) w) as [l w1].
  simpl in *. apply array_sort_Forall. exact H.
Qed.

Lemma generateMockLogs_newestFirst (envId : string) (count : Z) (w : World) :
  newestFirst (fst (generateMockLogs toString36 envId count w)).
Proof.
  unfold generateMockLogs, bind.
  destruct (generateMockLogs_loop toString36 envId (Z.to_nat count) w) as [l w1].
  simpl. apply array_sort_newestFirst.
Qed.

Lemma refreshLogs_logs (envId : string) (s : Store) (w : World) :
  logs (fst (refreshLogs toString36 envId s w))
  = (fst (generateMockLogs toString36 envId (fst (getRandomInt 5 20 w))
            (snd (getRandomInt 5 20 w)))
     ++ filter (fun log => negb (String.eqb (Log.environmentId log) envId)) (logs s))%list.
Proof.
  unfold refreshLogs, bind.
  destruct (getRandomInt 5 20 w) as [count w1]. simpl.
  destruct (generateMockLogs toString36 envId count w1) as [newLogs w2].
  reflexivity.
Qed.

Lemma refreshLogs_envLogs (envId : string) (s : Store) (w : World) :
  envLogs envId (fst (refreshLogs toString36 envId s w))
  = fst (generateMockLogs toString36 envId (fst (getRandomInt 5 20 w))
           (snd (getRandomInt 5 20 w))) /\
  (forall other, other <> envId ->
     envLogs other (fst (refreshLogs toString36 envId s w)) = envLogs other s).
Proof.
  pose proof (generateMockLogs_environmentId envId (fst (getRandomInt 5 20 w))
                (snd (getRandomInt 5 20 w))) as Hbatch.
  unfold envLogs. rewrite refreshLogs_logs. split.
  - rewrite filter_app, filter_field_eq_all by exact Hbatch.
    rewrite filter_field_eq_after_neq_same. apply app_nil_r.
  - intros other Hne. rewrite filter_app.
    rewrite (filter_field_eq_none Log.environmentId) with (id := envId)
      by (assumption || exact Hbatch).
    simpl. now apply filter_field_eq_after_neq.
Qed.

(** C7. After [refreshLogs(envId)] the entries of [envId] are exactly
    the batch just generated, in its order: nothing held for that
    environment before the call is kept unless the batch holds it.  The
    entries of every other environment are the ones held before, in the
    same order. *)
Theorem refreshLogs_replaces_environment_logs (envId : string) (s : Store) (w : World) :
  let s' := fst (refreshLogs toString36 envId s w) in
  let batch := fst (generateMockLogs toString36 envId (fst (getRandomInt 5 20 w))
                      (snd (getRandomInt 5 20 w))) in
  envLogs envId s' = batch /\
  Forall (fun log => Log.environmentId log = envId) batch /\
  (forall old, In old (logs s) -> Log.environmentId old = envId ->
     In old (logs s') -> In old batch) /\
  (forall other, other <> envId -> envLogs other s' = envLogs other s).
Proof.
  intros s' batch.
  destruct (refreshLogs_envLogs envId s w) as (Hsame & Hother).
  split; [exact Hsame|].
  split; [apply generateMockLogs_environmentId|].
  split; [|exact Hother].
  intros old _ Hold Hin. fold s' batch in Hsame. rewrite <- Hsame.
  unfold envLogs. apply filter_In. split; [exact Hin|].
  rewrite Hold. apply String.eqb_refl.
Qed.

End Logs.

(** ** Newest-first order of the logs *)

Lemma envLogs_cons (environmentId : string) (log : Log.t) (s : Store) :
  envLogs environmentId (addLog log s)
  = if String.eqb (Log.environmentId log) environmentId
    then log :: envLogs environmentId s
    else envLogs environmentId s.
Proof. reflexivity. Qed.

Lemma newestFirst_nil : newestFirst [].
Proof. constructor. Qed.

Section Order.

Variable JSON_stringify : Json -> nat -> string.
Variable toLowerCase : string -> string.
Variable toString36 : Q -> string.

Lemma filteredLogs_newestFirst (s : Store)
    (environmentId filterLevel filterSource searchTerm : string) (displayCount : Z) :
  logsNewestFirst s ->
  newestFirst (filteredLogs JSON_stringify toLowerCase (logs s) environmentId filterLevel
                 filterSource searchTerm displayCount).
Proof.
  intros H. unfold filteredLogs, newestFirst.
  apply slice0_StronglySorted, filter_StronglySorted. apply H.
Qed.

(** The batches of the first render: each is in order and carries the
    id of its environment, so with distinct ids every environment reads
    back its own batch. *)
Lemma initialLogs_ids (envs : list Env.t) (w : World) :
  Forall (fun log => In (Log.environmentId log) (map Env.id envs))
         (fst (initialLogs toString36 envs w)).
Proof.
  revert w. induction envs as [|env rest IH]; intros w; simpl.
  - constructor.
  - unfold bind. destruct (getRandomInt 50 150 w) as [count w1].
    pose proof (generateMockLogs_environmentId toString36 (Env.id env) count w1) as Hb.
    destruct (generateMockLogs toString36 (Env.id env) count w1) as [batch w2].
    specialize (IH w2). destruct (initialLogs toString36 rest w2) as [more w3].
    simpl in *. apply Forall_app. split.
    + eapply Forall_impl; [|exact Hb]. simpl. intros log Hlog. left. symmetry. exact Hlog.
    + eapply Forall_impl; [|exact IH]. simpl. intros log Hlog. right. exact Hlog.
Qed.

Lemma initialLogs_newestFirst (envs : list Env.t) (w : World) (environmentId : string) :
  NoDup (map Env.id envs) ->
  newestFirst (filter (fun log => String.eqb (Log.environmentId log) environmentId)
                 (fst (initialLogs toString36 envs w))).
Proof.
  revert w. induction envs as [|env rest IH]; intros w Hnd; simpl.
  - constructor.
  - inversion Hnd as [|x l Hnotin Hrest]; subst.
    unfold bind. destruct (getRandomInt 50 150 w) as [count w1].
    pose proof (generateMockLogs_environmentId toString36 (Env.id env) count w1) as Hb.
    pose proof (generateMockLogs_newestFirst toString36 (Env.id env) count w1) as Hs.
    destruct (generateMockLogs toString36 (Env.id env) count w1) as [batch w2].
    specialize (IH w2 Hrest).
    pose proof (initialLogs_ids rest w2) as Hids.
    destruct (initialLogs toString36 rest w2) as [more w3].
    simpl in *. rewrite filter_app.
    destruct (String.eqb_spec environmentId (Env.id env)) as [->|Hne].
    + rewrite filter_field_eq_all by exact Hb.
      rewrite (filter_field_eq_absent Log.environmentId);
        [rewrite app_nil_r; exact Hs|].
      intros log Hin E.
      rewrite Forall_forall in Hids. specialize (Hids log Hin).
      rewrite E in Hids. contradiction.
    + rewrite (filter_field_eq_none Log.environmentId) with (id := Env.id env)
        by (assumption || exact Hb).
      exact IH.
Qed.

Lemma NoDup_MOCK_ENVIRONMENTS : NoDup (map Env.id MOCK_ENVIRONMENTS).
Proof.
  simpl. repeat constructor; simpl; intuition discriminate.
Qed.

Lemma initialStore_newestFirst (keys : list Key.t) (hooks : list Hook.t) (w : World) :
  logsNewestFirst (fst (initialStore toString36 keys hooks w)).
Proof.
  intros environmentId. unfold initialStore, bind, envLogs.
  pose proof (initialLogs_newestFirst MOCK_ENVIRONMENTS w environmentId
                NoDup_MOCK_ENVIRONMENTS) as H.
  destruct (initialLogs toString36 MOCK_ENVIRONMENTS w) as [allLogs w1].
  exact H.
Qed.

Lemma applyOp_newestFirst (op : StoreOp) (s : Store) (w : World) :
  logsNewestFirst s ->
  inOrder op s = true ->
  logsNewestFirst (fst (applyOp toString36 op s w)).
Proof.
  intros Hs Hop environmentId.
  destruct op; simpl; try apply Hs.
  - (* deleteEnvironment *)
    unfold envLogs. rewrite deleteEnvironment_logs.
    destruct (String.eqb_spec environmentId id) as [->|Hne].
    + rewrite filter_field_eq_after_neq_same. apply newestFirst_nil.
    + rewrite filter_field_eq_after_neq by exact Hne. apply Hs.
  - (* addLog *)
    rewrite envLogs_cons.
    destruct (String.eqb_spec (Log.environmentId log) environmentId) as [E|_];
      [|apply Hs].
    constructor; [apply Hs|].
    simpl in Hop. rewrite E in Hop. rewrite forallb_forall in Hop.
    apply Forall_forall. intros old Hold. apply Z.leb_le, Hop, Hold.
  - (* refreshLogs *)
    destruct (refreshLogs_envLogs toString36 envId s w) as (Hsame & Hother).
    destruct (String.eqb_spec environmentId envId) as [->|Hne].
    + rewrite Hsame. apply generateMockLogs_newestFirst.
    + rewrite Hother by exact Hne. apply Hs.
Qed.

(** C8, as the code has it.  In every state reached from the first
    render by operations among which [addLog] is only given entries no
    older than the entries its environment already holds, the entries
    of each environment are in descending order of time stamp, and so
    is the list the log viewer shows for any filter and display count
    (the viewer filters and truncates, it does not sort).  Every such
    operation keeps the order: [refreshLogs] and [deleteEnvironment]
    always, [addLog] for such an entry. *)
Theorem ordered_histories_are_newest_first (s : Store) :
  reachableVia toString36 inOrder s ->
  logsNewestFirst s /\
  (forall environmentId filterLevel filterSource searchTerm displayCount,
     newestFirst (filteredLogs JSON_stringify toLowerCase (logs s) environmentId
                    filterLevel filterSource searchTerm displayCount)) /\
  (forall op w,
     inOrder op s = true -> logsNewestFirst (fst (applyOp toString36 op s w))).
Proof.
  intros Hreach.
  assert (Hs : logsNewestFirst s).
  { induction Hreach as [keys hooks w _|s op w _ IH _ Hop].
    - apply initialStore_newestFirst.
    - apply applyOp_newestFirst; assumption. }
  split; [exact Hs|]. split.
  - intros. apply filteredLogs_newestFirst. exact Hs.
  - intros op w Hop. apply applyOp_newestFirst; assumption.
Qed.

End Order.

Lemma reachableVia_addLog (toString36 : Q -> string) (allowed : StoreOp -> Store -> bool)
    (log : Log.t) (s : Store) :
  reachableVia toString36 allowed s ->
  allowed (AddLog log) s = true ->
  reachableVia toString36 allowed (addLog log s).
Proof.
  intros Hs Hok.
  exact (reach_step (AddLog log) Hs fair_sample_world Hok).
Qed.

Lemma reachableVia_firstRender (allowed : StoreOp -> Store -> bool) :
  reachableVia sample_toString36 allowed firstRender.
Proof.
  unfold firstRender. apply reach_init. exact fair_sample_world.
Qed.

Lemma fair_varied_world : fair varied_world.
Proof.
  intros i. simpl.
  pose proof (Z.mod_pos_bound (Z.of_nat i * 37 + 11) 100 eq_refl) as H.
  unfold Qle, Qlt. simpl. lia.
Qed.

Lemma reachableVia_variedRefreshed (allowed : StoreOp -> Store -> bool) :
  allowed (RefreshLogs "env-2") variedRender = true ->
  reachableVia sample_toString36 allowed variedRefreshed.
Proof.
  unfold variedRefreshed, variedRender. intros Hok.
  apply reach_step; [|exact fair_varied_world|exact Hok].
  apply reach_init. exact fair_varied_world.
Qed.

Lemma ordered_histories_are_newest_first_witness :
  reachableVia sample_toString36 inOrder orderedStore /\
  logsNewestFirst orderedStore /\
  map Log.timestamp (envLogs "env-2" orderedStore) =
    [1722600000000; 1722464905000; 1722374724000; 1722198203000;
     1722108082000; 1722017901000; 1721927780000] /\
  inOrder (AddLog (log_of "log-late" "env-2" 1722000000000)) variedRefreshed = false.
Proof.
  assert (Hok : inOrder (AddLog (log_of "log-new" "env-2" 1722600000000)) variedRefreshed
                = true) by (vm_compute; reflexivity).
  assert (H : reachableVia sample_toString36 inOrder orderedStore).
  { exact (@reachableVia_addLog _ _ _ _ (reachableVia_variedRefreshed inOrder eq_refl) Hok). }
  split; [exact H|]. split; [|split].
  - exact (proj1 (ordered_histories_are_newest_first sample_stringify sample_toLowerCase H)).
  - vm_compute. reflexivity.
  - vm_compute. reflexivity.
Defined.

Lemma unordered_prefix_not_newestFirst (rest : list Log.t) :
  ~ newestFirst
      (filteredLogs sample_stringify sample_toLowerCase
         (log_of "log-b" "env-1" 50 :: log_of "log-a" "env-1" 100 :: rest)
         "env-1" "ALL" "ALL" "" 50).
Proof.
  unfold filteredLogs, slice0. simpl.
  change (Z.to_nat 50) with (S (S 48)). simpl.
  intros H. inversion H as [|a l _ Hall]; subst.
  inversion Hall as [|b l' Hab _]; subst.
  simpl in Hab. lia.
Qed.

Lemma unordered_envLogs_not_newestFirst (s : Store) :
  ~ newestFirst
      (envLogs "env-1"
         (addLog (log_of "log-b" "env-1" 50) (addLog (log_of "log-a" "env-1" 100) s))).
Proof.
  rewrite !envLogs_cons. simpl.
  intros H. inversion H as [|a l _ Hall]; subst.
  inversion Hall as [|b l' Hab _]; subst.
  simpl in Hab. lia.
Qed.

(** C8, as stated, fails: after the first render and two calls of
    [addLog] for "env-1", with time stamps 100 and then 50, the store is
    reachable and the viewer's list for "env-1" starts with the entry
    stamped 50 followed by the one stamped 100. *)
Lemma addLog_breaks_newest_first :
  reachable sample_toString36 unorderedStore /\
  ~ newestFirst (envLogs "env-1" unorderedStore) /\
  ~ newestFirst
      (filteredLogs sample_stringify sample_toLowerCase (logs unorderedStore)
         "env-1" "ALL" "ALL" "" 50).
Proof.
  split; [|split].
  - unfold reachable, unorderedStore.
    apply reachableVia_addLog; [|reflexivity].
    apply reachableVia_addLog; [|reflexivity].
    apply reachableVia_firstRender.
  - exact (@unordered_envLogs_not_newestFirst firstRender).
  - exact (@unordered_prefix_not_newestFirst (logs firstRender)).
Qed.

(** * Further properties of the store *)

Lemma store_eq (s t : Store) :
  environments s = environments t ->
  selectedEnvironmentId s = selectedEnvironmentId t ->
  apiKeys s = apiKeys t ->
  webhooks s = webhooks t ->
  logs s = logs t ->
  s = t.
Proof.
  destruct s, t; simpl; intros; subst; reflexivity.
Qed.

Section ReplaceById.

Variable T : Type.
Variable ident : T -> string.
Variable updated : T.

Local Abbreviation replace :=
  (fun x : T => if String.eqb (ident x) (ident updated) then updated else x).

Lemma replace_hit (x : T) : ident x = ident updated -> replace x = updated.
Proof. intros E. cbv beta. rewrite E, String.eqb_refl. reflexivity. Qed.

Lemma replace_miss (x : T) : ident x <> ident updated -> replace x = x.
Proof.
  intros Hne. cbv beta.
  destruct (String.eqb_spec (ident x) (ident updated)); [contradiction | reflexivity].
Qed.

Lemma replace_idempotent (l : list T) : map replace (map replace l) = map replace l.
Proof.
  rewrite map_map. apply map_ext. intros x.
  destruct (string_dec (ident x) (ident updated)) as [E|Hne].
  - rewrite (replace_hit E). apply replace_hit. reflexivity.
  - rewrite (replace_miss Hne). apply replace_miss. exact Hne.
Qed.

Lemma replace_keeps_ids (l : list T) : map ident (map replace l) = map ident l.
Proof.
  rewrite map_map. apply map_ext. intros x.
  destruct (string_dec (ident x) (ident updated)) as [E|Hne].
  - rewrite (replace_hit E). congruence.
  - rewrite (replace_miss Hne). reflexivity.
Qed.

Lemma replace_absent (l : list T) :
  (forall x, In x l -> ident x <> ident updated) -> map replace l = l.
Proof.
  intros H. rewrite <- (map_id l) at 2. apply map_ext_in. intros x Hx.
  apply replace_miss. exact (H x Hx).
Qed.

Lemma replace_In (l : list T) (y : T) :
  In y (map replace l) ->
  (y = updated /\ exists x, In x l /\ ident x = ident updated) \/
  (In y l /\ ident y <> ident updated).
Proof.
  intros H. apply in_map_iff in H. destruct H as (x & Hy & Hx).
  destruct (string_dec (ident x) (ident updated)) as [E|Hne].
  - rewrite (replace_hit E) in Hy. left. split; [congruence | exists x; tauto].
  - rewrite (replace_miss Hne) in Hy. right. subst y. tauto.
Qed.

Lemma replace_find (l : list T) :
  (exists x, In x l /\ ident x = ident updated) ->
  find (fun x => String.eqb (ident x) (ident updated)) (map replace l) = Some updated.
Proof.
  intros (x0 & Hin & Hid).
  induction l as [|x l IH]; [contradiction|].
  rewrite map_cons.
  destruct (string_dec (ident x) (ident updated)) as [E|Hne].
  - rewrite (replace_hit E). simpl. rewrite String.eqb_refl. reflexivity.
  - rewrite (replace_miss Hne). simpl.
    destruct (String.eqb_spec (ident x) (ident updated)); [contradiction|].
    apply IH. destruct Hin as [->|Hin]; [contradiction | exact Hin].
Qed.

End ReplaceById.

(** X1. Each of the three updates is idempotent: applying it twice
    with the same record leaves the store as one application does. *)
Theorem updates_are_idempotent :
  (forall env s, updateEnvironment env (updateEnvironment env s) = updateEnvironment env s) /\
  (forall key s, updateApiKey key (updateApiKey key s) = updateApiKey key s) /\
  (forall webhook s,
     updateWebhook webhook (updateWebhook webhook s) = updateWebhook webhook s).
Proof.
  split; [|split]; intros x s; apply store_eq; simpl; try reflexivity.
  - apply (replace_idempotent Env.id).
  - apply (replace_idempotent Key.id).
  - apply (replace_idempotent Hook.id).
Qed.

(** X2. [updateApiKey] replaces by id and never inserts: the ids of
    the keys, in order, are as before; every key that had the id of the
    record is now the record and every other key is untouched; and
    when no key has that id the store does not change at all. *)
Theorem updateApiKey_replaces_by_id (updatedKey : Key.t) (s : Store) :
  map Key.id (apiKeys (updateApiKey updatedKey s)) = map Key.id (apiKeys s) /\
  (forall k, In k (apiKeys (updateApiKey updatedKey s)) ->
     Key.id k = Key.id updatedKey -> k = updatedKey) /\
  (forall k, Key.id k <> Key.id updatedKey ->
     (In k (apiKeys (updateApiKey updatedKey s)) <-> In k (apiKeys s))) /\
  ((forall k, In k (apiKeys s) -> Key.id k <> Key.id updatedKey) ->
     updateApiKey updatedKey s = s).
Proof.
  split; [|split; [|split]].
  - apply (replace_keeps_ids Key.id).
  - intros k Hin Hid. apply (replace_In Key.id) in Hin.
    destruct Hin as [[-> _]|[_ Hne]]; [reflexivity | contradiction].
  - intros k Hne. split.
    + intros Hin. apply (replace_In Key.id) in Hin.
      destruct Hin as [[-> _]|[Hin _]]; [contradiction | exact Hin].
    + intros Hin. simpl. apply in_map_iff. exists k. split; [|exact Hin].
      apply (replace_miss Key.id). exact Hne.
  - intros Habsent. apply store_eq; simpl; try reflexivity.
    apply (replace_absent Key.id). exact Habsent.
Qed.

(** X3. A key or webhook that is added is read back at the end of the
    list of its environment, and the lists of the other environments
    are as before. *)
Theorem added_records_are_read_back :
  (forall key s,
     filteredApiKeys (Key.environmentId key) (addApiKey key s)
     = (filteredApiKeys (Key.environmentId key) s ++ [key])%list /\
     (forall other, other <> Key.environmentId key ->
        filteredApiKeys other (addApiKey key s) = filteredApiKeys other s)) /\
  (forall webhook s,
     filteredWebhooks (Hook.environmentId webhook) (addWebhook webhook s)
     = (filteredWebhooks (Hook.environmentId webhook) s ++ [webhook])%list /\
     (forall other, other <> Hook.environmentId webhook ->
        filteredWebhooks other (addWebhook webhook s) = filteredWebhooks other s)).
Proof.
  split; intros x s; split.
  - unfold filteredApiKeys. simpl. rewrite filter_app. simpl.
    rewrite String.eqb_refl. reflexivity.
  - intros other Hne. unfold filteredApiKeys. simpl. rewrite filter_app. simpl.
    destruct (String.eqb_spec (Key.environmentId x) other); [congruence|].
    apply app_nil_r.
  - unfold filteredWebhooks. simpl. rewrite filter_app. simpl.
    rewrite String.eqb_refl. reflexivity.
  - intros other Hne. unfold filteredWebhooks. simpl. rewrite filter_app. simpl.
    destruct (String.eqb_spec (Hook.environmentId x) other); [congruence|].
    apply app_nil_r.
Qed.

Lemma filter_idempotent {T} (p : T -> bool) (l : list T) :
  filter p (filter p l) = filter p l.
Proof.
  induction l as [|x l IH]; simpl; [reflexivity|].
  destruct (p x) eqn:E; simpl; [rewrite E, IH; reflexivity | exact IH].
Qed.

Lemma filter_commute {T} (p q : T -> bool) (l : list T) :
  filter p (filter q l) = filter q (filter p l).
Proof.
  induction l as [|x l IH]; simpl; [reflexivity|].
  destruct (q x) eqn:Eq, (p x) eqn:Ep; simpl; rewrite ?Eq, ?Ep, IH; reflexivity.
Qed.

(** X4. Deleting an environment twice is the same as deleting it
    once, and two deletions can be done in either order. *)
Theorem deleteEnvironment_idempotent_and_commutative (a b : string) (s : Store) :
  deleteEnvironment a (deleteEnvironment a s) = deleteEnvironment a s /\
  deleteEnvironment a (deleteEnvironment b s) = deleteEnvironment b (deleteEnvironment a s).
Proof.
  split; apply store_eq;
    rewrite ?deleteEnvironment_environments, ?deleteEnvironment_apiKeys,
      ?deleteEnvironment_webhooks, ?deleteEnvironment_logs, ?deleteEnvironment_selected;
    try apply filter_idempotent; try apply filter_commute.
  - destruct (selected_is (selectedEnvironmentId s) a) eqn:E; simpl; [reflexivity|].
    rewrite E. reflexivity.
  - destruct (selectedEnvironmentId s) as [x|]; simpl; [|reflexivity].
    destruct (String.eqb x a) eqn:Ea, (String.eqb x b) eqn:Eb; simpl;
      rewrite ?Ea, ?Eb; reflexivity.
Qed.

Lemma envExists_after_delete (id e : string) (s : Store) :
  e <> id -> envExists s e = true -> envExists (deleteEnvironment id s) e = true.
Proof.
  unfold envExists. intros Hne H. rewrite deleteEnvironment_environments.
  apply existsb_exists in H. destruct H as (env & Hin & He).
  apply existsb_exists. exists env. split; [|exact He].
  apply In_filter_field_neq. split; [exact Hin|].
  apply String.eqb_eq in He. congruence.
Qed.

(** X5. [deleteEnvironment] keeps the references sound: if every key,
    webhook and log entry named an environment of the store before,
    each one that is left still does, and no environment has the
    deleted id any more. *)
Theorem deleteEnvironment_keeps_references (id : string) (s : Store) :
  wellReferenced s ->
  wellReferenced (deleteEnvironment id s) /\
  envExists (deleteEnvironment id s) id = false.
Proof.
  intros (Hk & Hh & Hl). split; [split; [|split]|].
  - intros k Hin. rewrite deleteEnvironment_apiKeys in Hin.
    apply In_filter_field_neq in Hin. destruct Hin as [Hin Hne].
    apply envExists_after_delete; auto.
  - intros h Hin. rewrite deleteEnvironment_webhooks in Hin.
    apply In_filter_field_neq in Hin. destruct Hin as [Hin Hne].
    apply envExists_after_delete; auto.
  - intros l Hin. rewrite deleteEnvironment_logs in Hin.
    apply In_filter_field_neq in Hin. destruct Hin as [Hin Hne].
    apply envExists_after_delete; auto.
  - unfold envExists. rewrite deleteEnvironment_environments.
    apply not_true_is_false. intros H. apply existsb_exists in H.
    destruct H as (env & Hin & He). apply In_filter_field_neq in Hin.
    apply String.eqb_eq in He. tauto.
Qed.

Lemma wellReferenced_sampleStore : wellReferenced sampleStore.
Proof.
  split; [|split]; intros x Hin; simpl in Hin;
    repeat (destruct Hin as [<-|Hin]; [reflexivity|]); contradiction.
Qed.

Lemma deleteEnvironment_keeps_references_witness :
  wellReferenced sampleStore /\
  wellReferenced (deleteEnvironment "env-1" sampleStore).
Proof.
  split; [exact wellReferenced_sampleStore|].
  exact (proj1 (@deleteEnvironment_keeps_references "env-1" sampleStore
                  wellReferenced_sampleStore)).
Defined.

(** * Further properties of the log viewer *)

Lemma filter_all {T} (p : T -> bool) (l : list T) :
  (forall x, In x l -> p x = true) -> filter p l = l.
Proof.
  induction l as [|x l IH]; simpl; intros H; [reflexivity|].
  rewrite (H x) by auto. rewrite IH; [reflexivity|]. intros y Hy. apply H. auto.
Qed.

Section Viewer.

Variable JSON_stringify : Json -> nat -> string.
Variable toLowerCase : string -> string.

(** X6. With the filters the viewer starts with (level ALL, source
    ALL, empty search) it shows the first [displayCount] entries of the
    environment, in the order of the store; all of them once
    [displayCount] reaches their number; and it shows fewer entries
    than the environment has, which is when "Load More" is offered,
    exactly when [displayCount] is below that number. *)
Theorem default_filters_show_a_prefix (logs : list Log.t) (environmentId : string)
    (displayCount : Z) :
  0 <= displayCount ->
  let envLogs := filter (fun log => String.eqb (Log.environmentId log) environmentId) logs in
  let shown := filteredLogs JSON_stringify toLowerCase logs environmentId "ALL" "ALL" ""
                 displayCount in
  shown = firstn (Z.to_nat displayCount) envLogs /\
  (Z.of_nat (List.length envLogs) <= displayCount -> shown = envLogs) /\
  ((List.length shown < List.length envLogs)%nat <->
   displayCount < Z.of_nat (List.length envLogs)).
Proof.
  intros Hn envLogs shown.
  assert (Hshown : shown = firstn (Z.to_nat displayCount) envLogs).
  { subst shown envLogs. unfold filteredLogs, slice0.
    destruct (Z.ltb_spec displayCount 0); [lia|].
    rewrite filter_all; [reflexivity|]. intros log _. reflexivity. }
  split; [exact Hshown|]. split.
  - intros Hall. rewrite Hshown. apply firstn_all2. lia.
  - rewrite Hshown, length_firstn. lia.
Qed.

(** X7. Whatever the filters, every entry the viewer shows is an entry
    of the store for the environment asked for, has the level and the
    source asked for unless the filter is ALL, and the entries shown
    are at most [displayCount] (for a count that is not negative). *)
Theorem shown_logs_match_the_filters (logs : list Log.t)
    (environmentId filterLevel filterSource searchTerm : string) (displayCount : Z) :
  0 <= displayCount ->
  let shown := filteredLogs JSON_stringify toLowerCase logs environmentId filterLevel
                 filterSource searchTerm displayCount in
  Z.of_nat (List.length shown) <= displayCount /\
  (forall log, In log shown ->
     In log logs /\
     Log.environmentId log = environmentId /\
     (filterLevel = "ALL" \/ Log.levelName (Log.level log) = filterLevel) /\
     (filterSource = "ALL" \/ Log.sourceName (Log.source log) = filterSource)).
Proof.
  intros Hn shown. subst shown. unfold filteredLogs, slice0.
  destruct (Z.ltb_spec displayCount 0); [lia|].
  split.
  - rewrite length_firstn. lia.
  - intros log Hin.
    match type of Hin with In _ (firstn ?n ?l) =>
      assert (Hin' : In log l)
        by (rewrite <- (firstn_skipn n l); apply in_or_app; left; exact Hin)
    end.
    apply filter_In in Hin'. destruct Hin' as [Hin' Hp].
    apply filter_In in Hin'. destruct Hin' as [Hlog Henv].
    apply String.eqb_eq in Henv.
    apply andb_true_iff in Hp. destruct Hp as [Hp _].
    apply andb_true_iff in Hp. destruct Hp as [Hlevel Hsource].
    apply orb_true_iff in Hlevel. apply orb_true_iff in Hsource.
    rewrite !String.eqb_eq in Hlevel, Hsource. tauto.
Qed.

End Viewer.

Lemma default_filters_show_a_prefix_witness :
  0 <= 1 /\
  filteredLogs sample_stringify sample_toLowerCase (logs sampleStore) "env-1" "ALL" "ALL" "" 1
  = [log_of "log-3" "env-1" 300].
Proof.
  split; [lia|].
  exact (proj1 (@default_filters_show_a_prefix sample_stringify sample_toLowerCase
                  (logs sampleStore) "env-1" 1 ltac:(lia))).
Defined.

Lemma shown_logs_match_the_filters_witness :
  0 <= 50 /\
  Z.of_nat (List.length
     (filteredLogs sample_stringify sample_toLowerCase (logs sampleStore) "env-1" "INFO"
        "System" "started" 50)) <= 50.
Proof.
  split; [lia|].
  exact (proj1 (@shown_logs_match_the_filters sample_stringify sample_toLowerCase
                  (logs sampleStore) "env-1" "INFO" "System" "started" 50 ltac:(lia))).
Defined.

(** * Further properties of the generators *)

Lemma randomItem_of_In {T} (undef : T) (arr : list T) (r : Q) :
  arr <> [] -> (0 <= r)%Q -> (r < 1)%Q ->
  In (randomItem_of undef arr r) arr.
Proof.
  intros Hne H0 H1. unfold randomItem_of.
  set (len := Z.of_nat (List.length arr)).
  assert (Hlen : 0 < len).
  { subst len. destruct arr; [contradiction | simpl; lia]. }
  pose proof (@randomInt_of_range 0 (len - 1) r ltac:(lia) H0 H1) as Hi.
  unfold randomInt_of in Hi.
  replace (len - 1 - 0 + 1) with len in Hi by lia.
  rewrite Z.add_0_r in Hi.
  destruct (Z.ltb_spec (Qfloor (r * inject_Z len)) 0); [lia|].
  apply nth_In. subst len. lia.
Qed.

(** X8. In a fair world [getRandomItem] on an array that is not empty
    returns one of its elements, never [undefined], and draws one
    random number. *)
Theorem getRandomItem_returns_an_element {T} (undef : T) (arr : list T) (w : World) :
  arr <> [] -> fair w ->
  In (fst (getRandomItem undef arr w)) arr /\
  random_pos (snd (getRandomItem undef arr w)) = S (random_pos w).
Proof.
  intros Hne Hfair. unfold getRandomItem, bind, Math_random, ret. simpl.
  split; [|reflexivity].
  apply randomItem_of_In; [exact Hne | apply Hfair ..].
Qed.

Lemma getRandomItem_returns_an_element_witness :
  sources <> [] /\ fair sample_world /\
  In (fst (getRandomItem Log.API sources sample_world)) sources.
Proof.
  assert (Hne : sources <> []) by discriminate.
  split; [exact Hne|]. split; [exact fair_sample_world|].
  exact (proj1 (@getRandomItem_returns_an_element _ Log.API sources sample_world Hne
                  fair_sample_world)).
Defined.

Section GeneratedLogs.

Variable toString36 : Q -> string.

Lemma generateMockLogs_loop_length (envId : string) (count : nat) (w : World) :
  List.length (fst (generateMockLogs_loop toString36 envId count w)) = count.
Proof.
  revert w. induction count as [|n IH]; intros w; simpl; [reflexivity|].
  unfold bind. destruct (generateMockLog toString36 envId w) as [entry w1].
  specialize (IH w1).
  destruct (generateMockLogs_loop toString36 envId n w1) as [rest w2].
  simpl in *. congruence.
Qed.

Lemma generateMockLogs_length (envId : string) (count : Z) (w : World) :
  List.length (fst (generateMockLogs toString36 envId count w)) = Z.to_nat count.
Proof.
  unfold generateMockLogs, bind.
  pose proof (generateMockLogs_loop_length envId (Z.to_nat count) w) as H.
  destruct (generateMockLogs_loop toString36 envId (Z.to_nat count) w) as [l w1].
  simpl in *. rewrite <- H. apply Permutation_length, array_sort_Permutation.
Qed.

(** X9. [generateMockLogs(envId, count)] returns [count] entries (none
    for a negative count); and in a fair world [refreshLogs] leaves the
    environment with 5 to 20 entries, without touching the
    environments, the keys, the webhooks or the selection. *)
Theorem refreshLogs_batch_size (envId : string) (s : Store) (w : World) :
  fair w ->
  let s' := fst (refreshLogs toString36 envId s w) in
  (forall count w0,
     List.length (fst (generateMockLogs toString36 envId count w0)) = Z.to_nat count) /\
  (5 <= List.length (envLogs envId s') <= 20)%nat /\
  environments s' = environments s /\
  selectedEnvironmentId s' = selectedEnvironmentId s /\
  apiKeys s' = apiKeys s /\
  webhooks s' = webhooks s.
Proof.
  intros Hfair s'. split; [intros; apply generateMockLogs_length|]. split.
  - subst s'. rewrite (proj1 (refreshLogs_envLogs toString36 envId s w)).
    rewrite generateMockLogs_length.
    unfold getRandomInt, bind, Math_random, ret. simpl.
    pose proof (@randomInt_of_range 5 20 (random_tape w (random_pos w)) ltac:(lia)
                  (proj1 (Hfair _)) (proj2 (Hfair _))).
    lia.
  - subst s'. unfold refreshLogs, bind.
    destruct (getRandomInt 5 20 w) as [count w1].
    destruct (generateMockLogs toString36 envId count w1) as [newLogs w2].
    simpl. auto.
Qed.

End GeneratedLogs.

Lemma refreshLogs_batch_size_witness :
  fair sample_world /\
  (5 <= List.length
          (envLogs "env-2" (fst (refreshLogs sample_toString36 "env-2" sampleStore
                                   sample_world))) <= 20)%nat.
Proof.
  split; [exact fair_sample_world|].
  exact (proj1 (proj2 (@refreshLogs_batch_size sample_toString36 "env-2" sampleStore
                         sample_world fair_sample_world))).
Defined.

Lemma source_is_API_iff (s : Log.Source) : source_is_API s = true <-> s = Log.API.
Proof. destruct s; simpl; split; intros H; try reflexivity; discriminate. Qed.

Lemma level_is_iff (a b : Log.Level) : level_is a b = true <-> a = b.
Proof. destruct a, b; simpl; split; intros H; try reflexivity; discriminate. Qed.

Section GeneratedEntry.

Variable toString36 : Q -> string.

(** X10. One generated entry, in a fair world: its time stamp lies
    within the 30 days, 23 hours and 59 minutes before the clock
    reading it starts from; it has a request id exactly when its source
    is API; a status code only when the source is API and the level is
    not DEBUG, and then one of the nine listed codes; a latency only
    with a status code below 500, and then between 10 and 1500; details
    exactly when the level is ERROR; and its message is one of the
    messages of its source. *)
Theorem generateMockLog_shape (envId : string) (w : World) :
  fair w ->
  let entry := fst (generateMockLog toString36 envId w) in
  let now := date_tape w (date_pos w) in
  now - 2678340000 <= Log.timestamp entry <= now /\
  (Log.requestId entry <> None <-> Log.source entry = Log.API) /\
  (forall c, Log.statusCode entry = Some c ->
     Log.source entry = Log.API /\ Log.level entry <> Log.DEBUG /\
     In c [200; 201; 204; 400; 401; 403; 404; 429; 500]) /\
  (forall l, Log.latencyMs entry = Some l ->
     10 <= l <= 1500 /\ exists c, Log.statusCode entry = Some c /\ c < 500) /\
  (Log.details entry <> None <-> Log.level entry = Log.ERROR) /\
  In (Log.message entry) (messages (Log.source entry)).
Proof.
  intros Hfair entry now. subst entry now.
  unfold generateMockLog, bind, getRandomItem, getRandomInt, generateUUID, bind,
    Math_random, Date_now, ret.
  simpl.
  set (src := randomItem_of Log.API sources (random_tape w (random_pos w))).
  set (lvl := randomItem_of Log.INFO levels (random_tape w (S (random_pos w)))).
  pose proof (@randomInt_of_range 0 30 _ ltac:(lia) (proj1 (Hfair (S (S (random_pos w)))))
                (proj2 (Hfair _))) as Hdays.
  pose proof (@randomInt_of_range 0 23 _ ltac:(lia)
                (proj1 (Hfair (S (S (S (random_pos w)))))) (proj2 (Hfair _))) as Hhours.
  pose proof (@randomInt_of_range 0 59 _ ltac:(lia)
                (proj1 (Hfair (S (S (S (S (random_pos w))))))) (proj2 (Hfair _))) as Hmins.
  assert (Hmsg : forall i, In (randomItem_of "" (messages src) (random_tape w i))
                              (messages src)).
  { intros i. apply randomItem_of_In; [destruct src; discriminate | apply Hfair ..]. }
  assert (Hlat : forall i, 10 <= randomInt_of 10 1500 (random_tape w i) <= 1500).
  { intros i. apply randomInt_of_range; [lia | apply Hfair ..]. }
  assert (Hcodes : forall i c,
            randomItem_of None
              (map Some [200; 201; 204; 400; 401; 403; 404; 429; 500]) (random_tape w i)
            = Some c ->
            In c [200; 201; 204; 400; 401; 403; 404; 429; 500]).
  { intros i c Hc.
    pose proof (@randomItem_of_In _ None
                  (map Some [200; 201; 204; 400; 401; 403; 404; 429; 500])
                  (random_tape w i) ltac:(discriminate) (proj1 (Hfair i))
                  (proj2 (Hfair i))) as Hin.
    rewrite Hc in Hin. apply in_map_iff in Hin.
    destruct Hin as (c' & E & Hin). congruence. }
  simpl in Hcodes.
  assert (Hdetails :
    (if level_is lvl Log.ERROR
     then Some (JObj [("errorType", JStr "Timeout"); ("stackTrace", JStr "...")])
     else None) <> None <-> lvl = Log.ERROR).
  { rewrite <- level_is_iff. destruct (level_is lvl Log.ERROR); split; intros H;
      try reflexivity; try discriminate. exfalso. apply H. reflexivity. }
  destruct (source_is_API src) eqn:Hs; simpl;
    [destruct (level_is lvl Log.DEBUG) eqn:Hd; simpl;
     [|match goal with
       | |- context [match ?sc with Some _ => _ | None => _ end] =>
           destruct sc as [c|] eqn:Hc; simpl;
           [destruct (negb (c =? 0) && (c <? 500)) eqn:Hl; simpl|]
       end]|].
  all: (split; [lia|]).
  all: (split;
        [split; intros H;
         first [ apply source_is_API_iff; assumption
               | discriminate
               | exfalso; apply H; reflexivity
               | apply source_is_API_iff in H; congruence ]|]).
  all: (split;
        [intros c0 Hc0;
         first [ discriminate
               | injection Hc0 as <-;
                 split; [apply source_is_API_iff; assumption|];
                 split; [intros E; apply level_is_iff in E; congruence
                        | eapply Hcodes; eassumption] ]|]).
  all: (split;
        [intros l0 Hl0;
         first [ discriminate
               | injection Hl0 as <-;
                 split; [apply Hlat|];
                 exists c; split; [reflexivity|];
                 apply andb_true_iff in Hl; destruct Hl as [_ Hl];
                 apply Z.ltb_lt; exact Hl ]|]).
  all: (split; [exact Hdetails | apply Hmsg]).
Qed.
End GeneratedEntry.

Lemma generateMockLog_shape_witness :
  fair sample_world /\
  Log.timestamp (fst (generateMockLog sample_toString36 "env-1" sample_world))
  <= 1722500000000.
Proof.
  split; [exact fair_sample_world|].
  exact (proj2 (proj1 (@generateMockLog_shape sample_toString36 "env-1" sample_world
                         fair_sample_world))).
Defined.

(** * Further properties of the request simulator *)

Section Outcomes.

Variable JSON_stringify : Json -> nat -> string.
Variable toString36 : Q -> string.

Local Abbreviation handle := (handleSendRequestOn JSON_stringify toString36).

(** The status code of an answer, by method. *)
Local Abbreviation successCode :=
  (fun method : Endpoint.Method =>
     match method with
     | Endpoint.POST => 201
     | Endpoint.DELETE => 204
     | Endpoint.GET | Endpoint.PUT | Endpoint.PATCH => 200
     end).

Lemma tryBlock_outcome (catalog : list Endpoint.t) (apiKeys : list Key.t)
    (method : Endpoint.Method) (path selectedAPIKeyId : string)
    (startTime : Q) (st : TesterState) (w : World) :
  let r := fst (tryBlock JSON_stringify toString36 catalog apiKeys method path
                  selectedAPIKeyId startTime st w) in
  (fst r = Normal /\ statusCode (snd r) = Some (successCode method) /\
   error (snd r) = error st) \/
  (fst r = Return /\
   In (statusCode (snd r)) [Some 404; Some 405; Some 401; Some 403] /\
   error (snd r) <> None).
Proof.
  unfold tryBlock, bind, getRandomInt, setTimeout_await, Math_random, ret.
  simpl.
  repeat match goal with
  | |- context [match find ?f ?l with _ => _ end] => destruct (find f l)
  | |- context [if ?b then _ else _] => destruct b
  end;
  first
    [ match goal with
      | |- context [succeed _ _ ?m ?p ?s ?x] =>
          left; apply (succeed_status JSON_stringify toString36 m p s x)
      end
    | right; unfold refuse, bind, performance_now, ret; simpl;
      split; [reflexivity|]; split; [tauto | discriminate] ].
Qed.

(** X11. Every run of the handler ends classified: loading is off and
    either the status is the success code of the method (200, 201 for
    POST, 204 for DELETE) with no error text, or it is one of 404, 405,
    401 and 403 with an error text.  The handler never reports 500 and
    never leaves the status unset. *)
Theorem every_run_is_classified (catalog : list Endpoint.t) (apiKeys : list Key.t)
    (method : Endpoint.Method) (path selectedAPIKeyId : string)
    (st : TesterState) (w : World) :
  let out := fst (handle catalog apiKeys method path selectedAPIKeyId st w) in
  isLoading out = false /\
  ((statusCode out = Some (successCode method) /\ error out = None) \/
   (In (statusCode out) [Some 404; Some 405; Some 401; Some 403] /\ error out <> None)).
Proof.
  intros out. subst out.
  pose proof (handleSendRequestOn_run JSON_stringify toString36 catalog apiKeys method path
                selectedAPIKeyId st w) as Erun.
  cbv zeta in Erun. rewrite Erun. clear Erun.
  match goal with
  | |- context [tryBlock _ _ ?c ?k ?m ?p ?i ?t0 ?s0 ?w1] =>
      pose proof (tryBlock_outcome c k m p i t0 s0 w1) as H;
      destruct (tryBlock JSON_stringify toString36 c k m p i t0 s0 w1)
        as [[completion st'] w2]
  end.
  simpl in H. unfold finallyBlock, bind, performance_now, ret. simpl.
  split; [reflexivity|].
  destruct H as [(-> & Hs & He)|(-> & Hs & He)]; simpl; [left | right]; tauto.
Qed.

(** X12. An endpoint that does not require authentication is answered
    with the success code of the method whatever keys the store holds
    and whatever key is selected: no key, an unknown one or a revoked
    one. *)
Theorem open_endpoint_ignores_keys (catalog : list Endpoint.t) (apiKeys : list Key.t)
    (method : Endpoint.Method) (path selectedAPIKeyId : string)
    (st : TesterState) (w : World) (mockEndpoint : Endpoint.t) :
  find (fun ep => String.eqb (Endpoint.path ep) path) catalog = Some mockEndpoint ->
  Endpoint.method mockEndpoint = method ->
  Endpoint.isAuthenticated mockEndpoint = false ->
  let out := fst (handle catalog apiKeys method path selectedAPIKeyId st w) in
  statusCode out = Some (successCode method) /\ error out = None.
Proof.
  intros Hfind Hm Hauth out. subst out.
  assert (Hmeq : Endpoint.method_eqb method (Endpoint.method mockEndpoint) = true)
    by (apply method_eqb_eq; congruence).
  simulate. rewrite Hfind, Hmeq, Hauth. simpl.
  match goal with
  | |- context [succeed _ _ _ _ ?s ?x] =>
      destruct (succeed_status JSON_stringify toString36 method path s x) as (Hc & Hs & He);
      destruct (succeed JSON_stringify toString36 method path s x) as [[c st'] w']
  end.
  simpl in *. subst c. simpl. split; assumption.
Qed.

(** X13. The permission table of the handler, for an Active key on an
    authenticated endpoint whose method matches.  A write method (POST,
    PUT, DELETE, PATCH) is answered with its success code when the key
    has 'admin' or 'write:data' and with 403 otherwise.  A GET is
    answered with 200 when the key has 'read:data', and with 403 when
    it has neither 'read:data' nor 'admin'. *)
Theorem permission_table (catalog : list Endpoint.t) (apiKeys : list Key.t)
    (method : Endpoint.Method) (path selectedAPIKeyId : string)
    (st : TesterState) (w : World) (mockEndpoint : Endpoint.t) (usedKey : Key.t) :
  find (fun ep => String.eqb (Endpoint.path ep) path) catalog = Some mockEndpoint ->
  Endpoint.method mockEndpoint = method ->
  Endpoint.isAuthenticated mockEndpoint = true ->
  selectedAPIKeyId <> "" ->
  find (fun k => String.eqb (Key.id k) selectedAPIKeyId) apiKeys = Some usedKey ->
  Key.status usedKey = Key.Active ->
  let out := fst (handle catalog apiKeys method path selectedAPIKeyId st w) in
  let admin := existsb (String.eqb "admin") (Key.permissions usedKey) in
  let write := existsb (String.eqb "write:data") (Key.permissions usedKey) in
  let read := existsb (String.eqb "read:data") (Key.permissions usedKey) in
  (method <> Endpoint.GET ->
     statusCode out = Some (if admin || write then successCode method else 403)) /\
  (method = Endpoint.GET -> read = true -> statusCode out = Some 200) /\
  (method = Endpoint.GET -> read = false -> admin = false -> statusCode out = Some 403).
Proof.
  intros Hfind Hm Hauth Hsel Hk Hstatus out admin write read. subst out.
  assert (Hmeq : Endpoint.method_eqb method (Endpoint.method mockEndpoint) = true)
    by (apply method_eqb_eq; congruence).
  apply truthy_nonempty in Hsel. apply key_active_iff in Hstatus.
  assert (Hforbidden :
    forbidden method usedKey
    = (negb admin && (is_write method && negb write)) || (is_get method && negb read))
    by reflexivity.
  assert (Hrun :
    statusCode (fst (handle catalog apiKeys method path selectedAPIKeyId st w))
    = Some (if forbidden method usedKey then 403 else successCode method)).
  { simulate. rewrite Hfind, Hmeq, Hauth, Hsel, Hk, Hstatus. simpl.
    destruct (forbidden method usedKey); simpl.
    - refused. reflexivity.
    - match goal with
      | |- context [succeed _ _ _ _ ?s ?x] =>
          destruct (succeed_status JSON_stringify toString36 method path s x)
            as (Hc & Hs & He);
          destruct (succeed JSON_stringify toString36 method path s x) as [[c st'] w']
      end.
      simpl in *. subst c. simpl. exact Hs. }
  rewrite Hrun, Hforbidden. clear Hrun Hforbidden.
  split; [|split].
  - intros Hw. destruct method; [contradiction | ..]; destruct admin, write; reflexivity.
  - intros -> Hr. rewrite Hr. destruct admin, write; reflexivity.
  - intros -> Hr Ha. rewrite Hr, Ha. destruct write; reflexivity.
Qed.

End Outcomes.

Lemma open_endpoint_ignores_keys_witness :
  statusCode
    (fst (handleSendRequest sample_stringify sample_toString36 [revokedKey] Endpoint.GET
            "/status" "key-revoked" idleTester sample_world)) = Some 200.
Proof.
  eapply (@open_endpoint_ignores_keys sample_stringify sample_toString36 MOCK_API_ENDPOINTS
            [revokedKey] Endpoint.GET "/status" "key-revoked" idleTester sample_world).
  - reflexivity.
  - reflexivity.
  - reflexivity.
Defined.

Lemma permission_table_witness :
  statusCode
    (fst (handleSendRequest sample_stringify sample_toString36 [writeKey] Endpoint.DELETE
            "/products/{id}" "key-write" idleTester sample_world)) = Some 204.
Proof.
  pose proof (@permission_table sample_stringify sample_toString36 MOCK_API_ENDPOINTS
                [writeKey] Endpoint.DELETE "/products/{id}" "key-write" idleTester
                sample_world _ writeKey eq_refl eq_refl eq_refl ltac:(discriminate)
                eq_refl eq_refl) as H.
  cbv zeta in H. apply (proj1 H). discriminate.
Defined.

(** * Handlers and the simulator together *)

Section FindById.

Variable T : Type.
Variable ident : T -> string.

Lemma find_absent (id : string) (l : list T) :
  (forall x, In x l -> ident x <> id) ->
  find (fun x => String.eqb (ident x) id) l = None.
Proof.
  induction l as [|x l IH]; simpl; intros H; [reflexivity|].
  destruct (String.eqb_spec (ident x) id) as [E|_].
  - exfalso. apply (H x); auto.
  - apply IH. intros y Hy. apply H. auto.
Qed.

Lemma find_appended (k : T) (l : list T) :
  (forall x, In x l -> ident x <> ident k) ->
  find (fun x => String.eqb (ident x) (ident k)) (l ++ [k]) = Some k.
Proof.
  induction l as [|x l IH]; simpl; intros H.
  - rewrite String.eqb_refl. reflexivity.
  - destruct (String.eqb_spec (ident x) (ident k)) as [E|_].
    + exfalso. apply (H x); auto.
    + apply IH. intros y Hy. apply H. auto.
Qed.

Lemma find_unique (k : T) (l : list T) :
  NoDup (map ident l) -> In k l ->
  find (fun x => String.eqb (ident x) (ident k)) l = Some k.
Proof.
  induction l as [|x l IH]; simpl; intros Hnd Hin; [contradiction|].
  inversion Hnd as [|i m Hnotin Hrest]; subst.
  destruct Hin as [->|Hin].
  - rewrite String.eqb_refl. reflexivity.
  - destruct (String.eqb_spec (ident x) (ident k)) as [E|_].
    + exfalso. apply Hnotin. rewrite E. apply in_map. exact Hin.
    + apply IH; assumption.
Qed.

End FindById.

Section Composition.

Variable JSON_stringify : Json -> nat -> string.
Variable toString36 : Q -> string.
Variable toISOString : Z -> string.
Variable toLocaleDateString : Z -> string.

Local Abbreviation handle := (handleSendRequestOn JSON_stringify toString36).

Local Abbreviation successCode :=
  (fun method : Endpoint.Method =>
     match method with
     | Endpoint.POST => 201
     | Endpoint.DELETE => 204
     | Endpoint.GET | Endpoint.PUT | Endpoint.PATCH => 200
     end).

(** What the handler answers on an authenticated endpoint once a key
    id is selected, by what the lookup of the key gives. *)
Lemma selected_key_outcome (catalog : list Endpoint.t) (apiKeys : list Key.t)
    (method : Endpoint.Method) (path selectedAPIKeyId : string)
    (st : TesterState) (w : World) (mockEndpoint : Endpoint.t) :
  find (fun ep => String.eqb (Endpoint.path ep) path) catalog = Some mockEndpoint ->
  Endpoint.method mockEndpoint = method ->
  Endpoint.isAuthenticated mockEndpoint = true ->
  selectedAPIKeyId <> "" ->
  let out := fst (handle catalog apiKeys method path selectedAPIKeyId st w) in
  match find (fun k => String.eqb (Key.id k) selectedAPIKeyId) apiKeys with
  | None =>
      statusCode out = Some 401 /\ error out = Some "Unauthorized: Invalid API Key."
  | Some usedKey =>
      if key_active usedKey
      then statusCode out
           = Some (if forbidden method usedKey then 403 else successCode method)
      else statusCode out = Some 401 /\ error out = Some "Unauthorized: Invalid API Key."
  end.
Proof.
  intros Hfind Hm Hauth Hsel out. subst out.
  assert (Hmeq : Endpoint.method_eqb method (Endpoint.method mockEndpoint) = true)
    by (apply method_eqb_eq; congruence).
  apply truthy_nonempty in Hsel.
  simulate. rewrite Hfind, Hmeq, Hauth, Hsel. simpl.
  destruct (find (fun k => String.eqb (Key.id k) selectedAPIKeyId) apiKeys) as [usedKey|].
  - destruct (key_active usedKey); simpl; [|refused; auto].
    destruct (forbidden method usedKey); simpl; [refused; reflexivity|].
    match goal with
    | |- context [succeed _ _ _ _ ?s ?x] =>
        destruct (succeed_status JSON_stringify toString36 method path s x)
          as (Hc & Hs & He);
        destruct (succeed JSON_stringify toString36 method path s x) as [[c st'] w']
    end.
    simpl in *. subst c. simpl. exact Hs.
  - refused. auto.
Qed.

(** X14. Once a key is revoked through [handleRevokeKey] (the
    confirmation given), or deleted through [deleteApiKey], a request
    that selects its id on an authenticated endpoint is answered 401
    "Invalid API Key", whatever its permissions were. *)
Theorem revoked_or_deleted_key_is_refused (catalog : list Endpoint.t)
    (method : Endpoint.Method) (path : string) (mockEndpoint : Endpoint.t)
    (key : Key.t) (s : Store) (w0 : World) (st : TesterState) (w : World) :
  find (fun ep => String.eqb (Endpoint.path ep) path) catalog = Some mockEndpoint ->
  Endpoint.method mockEndpoint = method ->
  Endpoint.isAuthenticated mockEndpoint = true ->
  Key.id key <> "" ->
  let revoked := fst (handleRevokeKey toISOString key true s w0) in
  let deleted := deleteApiKey (Key.id key) s in
  (statusCode (fst (handle catalog (apiKeys revoked) method path (Key.id key) st w))
   = Some 401 /\
   error (fst (handle catalog (apiKeys revoked) method path (Key.id key) st w))
   = Some "Unauthorized: Invalid API Key.") /\
  (statusCode (fst (handle catalog (apiKeys deleted) method path (Key.id key) st w))
   = Some 401 /\
   error (fst (handle catalog (apiKeys deleted) method path (Key.id key) st w))
   = Some "Unauthorized: Invalid API Key.").
Proof.
  intros Hfind Hm Hauth Hid revoked deleted. split.
  - pose proof (@selected_key_outcome catalog (apiKeys revoked) method path (Key.id key)
                  st w mockEndpoint Hfind Hm Hauth Hid) as H.
    cbv zeta in H.
    set (updated :=
           Key.mk (Key.id key) (Key.environmentId key) (Key.name key) (Key.key key)
                  Key.Revoked (Key.permissions key) (Key.createdAt key)
                  (Some (toISOString (date_tape w0 (date_pos w0)))) (Key.lastUsed key)
                  (Key.rateLimitOverride key)).
    assert (Hkeys : apiKeys revoked
                    = map (fun k => if String.eqb (Key.id k) (Key.id updated)
                                    then updated else k) (apiKeys s))
      by reflexivity.
    assert (Hlookup :
      find (fun k => String.eqb (Key.id k) (Key.id key)) (apiKeys revoked) = Some updated \/
      find (fun k => String.eqb (Key.id k) (Key.id key)) (apiKeys revoked) = None).
    { rewrite Hkeys.
      destruct (find (fun k => String.eqb (Key.id k) (Key.id key)) (apiKeys s))
        as [x|] eqn:E.
      - left. apply find_some in E. destruct E as [Hin Hx].
        apply String.eqb_eq in Hx.
        apply (replace_find Key.id updated). exists x. split; assumption.
      - right. rewrite (replace_absent Key.id updated); [exact E|].
        intros x Hx Heq. apply (find_none _ _ E) in Hx. simpl in Heq.
        rewrite Heq, String.eqb_refl in Hx. discriminate. }
    destruct Hlookup as [E|E]; rewrite E in H; exact H.
  - pose proof (@selected_key_outcome catalog (apiKeys deleted) method path (Key.id key)
                  st w mockEndpoint Hfind Hm Hauth Hid) as H.
    cbv zeta in H.
    rewrite (find_absent Key.id) in H; [exact H|].
    intros x Hx. subst deleted. simpl in Hx.
    apply In_filter_field_neq in Hx. tauto.
Qed.

(** X15. The key that [handleGenerateNewKey] adds is Active, belongs
    to the environment of the panel and holds 'read:data' only.  When
    its id is not empty and not already used by a key of the store, a
    request that selects it on an authenticated endpoint is answered
    200 for a GET and 403 for every other method. *)
Theorem generated_key_reads_but_does_not_write (catalog : list Endpoint.t)
    (method : Endpoint.Method) (path : string) (mockEndpoint : Endpoint.t)
    (environmentId : string) (s : Store) (w0 : World) (st : TesterState) (w : World) :
  find (fun ep => String.eqb (Endpoint.path ep) path) catalog = Some mockEndpoint ->
  Endpoint.method mockEndpoint = method ->
  Endpoint.isAuthenticated mockEndpoint = true ->
  let id := fst (generateUUID toString36 w0) in
  let s' := fst (handleGenerateNewKey toString36 toISOString toLocaleDateString
                   environmentId s w0) in
  id <> "" ->
  (forall k, In k (apiKeys s) -> Key.id k <> id) ->
  (exists k,
     apiKeys s' = (apiKeys s ++ [k])%list /\ Key.id k = id /\
     Key.environmentId k = environmentId /\ Key.status k = Key.Active /\
     Key.permissions k = ["read:data"]) /\
  statusCode (fst (handle catalog (apiKeys s') method path id st w))
  = Some (match method with Endpoint.GET => 200 | _ => 403 end).
Proof.
  intros Hfind Hm Hauth id s' Hid Hfresh.
  set (k := Key.mk id environmentId
              ("New Key " ++ toLocaleDateString (date_tape w0 (date_pos w0)))
              ("sk_test_"
               ++ js_substring 0 10
                    (js_substring 2 15
                       (toString36 (random_tape w0 (S (S (random_pos w0)))))
                     ++ js_substring 2 15
                          (toString36 (random_tape w0 (S (S (S (random_pos w0)))))))
               ++ "..."
               ++ js_substring 0 4
                    (js_substring 2 15
                       (toString36 (random_tape w0 (S (S (S (S (random_pos w0)))))))
                     ++ js_substring 2 15
                          (toString36
                             (random_tape w0 (S (S (S (S (S (random_pos w0))))))))))
              Key.Active ["read:data"]
              (toISOString (date_tape w0 (S (date_pos w0)))) None "Never" None).
  assert (Hkeys : apiKeys s' = (apiKeys s ++ [k])%list) by reflexivity.
  split.
  - exists k. split; [exact Hkeys|]. repeat split.
  - pose proof (@selected_key_outcome catalog (apiKeys s') method path id st w
                  mockEndpoint Hfind Hm Hauth Hid) as H.
    cbv zeta in H. rewrite Hkeys in H.
    change id with (Key.id k) in H at 1.
    rewrite (find_appended Key.id k) in H by exact Hfresh.
    change (key_active k) with true in H. cbv iota in H.
    rewrite Hkeys, H. destruct method; reflexivity.
Qed.

(** X16. The key that [handleCreateKey] adds takes its name, status and
    permissions from the form and its environment from the panel,
    whatever environment the form record names.  It is read back at the
    end of the keys of that environment, the keys of other environments
    are as before, and sound references stay sound when the
    environment of the panel is in the store. *)
Theorem created_key_lands_in_the_environment (environmentId : string) (newKey : Key.t)
    (s : Store) (w0 : World) :
  let s' := fst (handleCreateKey toString36 toISOString environmentId newKey s w0) in
  exists k,
    apiKeys s' = (apiKeys s ++ [k])%list /\
    Key.id k = fst (generateUUID toString36 w0) /\
    Key.environmentId k = environmentId /\
    Key.name k = Key.name newKey /\
    Key.status k = Key.status newKey /\
    Key.permissions k = Key.permissions newKey /\
    filteredApiKeys environmentId s' = (filteredApiKeys environmentId s ++ [k])%list /\
    (forall other, other <> environmentId ->
       filteredApiKeys other s' = filteredApiKeys other s) /\
    (wellReferenced s -> envExists s environmentId = true -> wellReferenced s').
Proof.
  intros s'.
  assert (Hshape : exists k,
            s' = addApiKey k s /\
            Key.id k = fst (generateUUID toString36 w0) /\
            Key.environmentId k = environmentId /\
            Key.name k = Key.name newKey /\
            Key.status k = Key.status newKey /\
            Key.permissions k = Key.permissions newKey).
  { eexists. split; [reflexivity|]. cbv beta iota delta [Key.id Key.environmentId Key.name Key.status Key.permissions].
    repeat (split; [reflexivity|]). reflexivity. }
  destruct Hshape as (k & Hs & Hid & Henv & Hname & Hstatus & Hperms).
  exists k. rewrite Hs.
  split; [reflexivity|]. split; [exact Hid|]. split; [exact Henv|].
  split; [exact Hname|]. split; [exact Hstatus|]. split; [exact Hperms|].
  split; [|split].
  - unfold filteredApiKeys. simpl. rewrite filter_app. simpl.
    rewrite Henv, String.eqb_refl. reflexivity.
  - intros other Hne. unfold filteredApiKeys. simpl. rewrite filter_app. simpl.
    rewrite Henv. destruct (String.eqb_spec environmentId other); [congruence|].
    apply app_nil_r.
  - intros (Hk & Hh & Hl) Hexists. split; [|split]; [|exact Hh|exact Hl].
    intros x Hx. simpl in Hx. apply in_app_or in Hx. destruct Hx as [Hx|[<-|[]]].
    + apply Hk. exact Hx.
    + rewrite Henv. exact Hexists.
Qed.

End Composition.

Lemma revoked_or_deleted_key_is_refused_witness :
  statusCode
    (fst (handleSendRequest sample_stringify sample_toString36
            (apiKeys (fst (handleRevokeKey sample_toISOString adminKey true sampleStore
                             sample_world)))
            Endpoint.POST "/users" "key-admin" idleTester sample_world)) = Some 401.
Proof.
  eapply (@revoked_or_deleted_key_is_refused sample_stringify sample_toString36
            sample_toISOString MOCK_API_ENDPOINTS Endpoint.POST "/users" _ adminKey
            sampleStore sample_world idleTester sample_world).
  - reflexivity.
  - reflexivity.
  - reflexivity.
  - discriminate.
Defined.

Lemma generated_key_reads_but_does_not_write_witness :
  fst (generateUUID sample_toString36 sample_world) <> "" /\
  statusCode
    (fst (handleSendRequest sample_stringify sample_toString36
            (apiKeys (fst (handleGenerateNewKey sample_toString36 sample_toISOString
                             sample_toLocaleDateString "env-1" sampleStore sample_world)))
            Endpoint.GET "/users/{id}" (fst (generateUUID sample_toString36 sample_world))
            idleTester sample_world)) = Some 200.
Proof.
  assert (Hid : fst (generateUUID sample_toString36 sample_world) <> "")
    by (vm_compute; discriminate).
  assert (Hfresh : forall k, In k (apiKeys sampleStore) ->
                     Key.id k <> fst (generateUUID sample_toString36 sample_world)).
  { intros k Hin. simpl in Hin.
    repeat (destruct Hin as [<-|Hin]; [vm_compute; discriminate|]). contradiction. }
  split; [exact Hid|].
  pose proof (@generated_key_reads_but_does_not_write sample_stringify sample_toString36
                sample_toISOString sample_toLocaleDateString MOCK_API_ENDPOINTS
                Endpoint.GET "/users/{id}" _ "env-1" sampleStore sample_world idleTester
                sample_world eq_refl eq_refl eq_refl) as H.
  cbv zeta in H. exact (proj2 (H Hid Hfresh)).
Defined.

(** * Forms, key selector and main view *)

(** X17. A check box of the key form: ticking it makes the value a
    permission; clearing it removes every copy of the value and
    nothing else; permissions other than the value are unaffected
    either way; ticking and then clearing restores the list when the
    value was not in it. *)
Theorem permission_boxes (value : string) (permissions : list string) :
  In value (handlePermissionChange value true permissions) /\
  ~ In value (handlePermissionChange value false permissions) /\
  (forall p checked, p <> value ->
     (In p (handlePermissionChange value checked permissions) <-> In p permissions)) /\
  (~ In value permissions ->
     handlePermissionChange value false (handlePermissionChange value true permissions)
     = permissions).
Proof.
  unfold handlePermissionChange. split; [|split; [|split]].
  - apply in_or_app. right. simpl. auto.
  - intros H. apply filter_In in H. destruct H as [_ H].
    rewrite String.eqb_refl in H. discriminate.
  - intros p [|] Hne.
    + split; intros H.
      * apply in_app_or in H. destruct H as [H|[H|[]]]; [exact H | congruence].
      * apply in_or_app. left. exact H.
    + rewrite filter_In. split; [tauto|]. intros H. split; [exact H|].
      destruct (String.eqb_spec p value); [contradiction | reflexivity].
  - intros Hnot. rewrite filter_app. simpl. rewrite String.eqb_refl. simpl.
    rewrite app_nil_r. apply filter_all. intros p Hp.
    destruct (String.eqb_spec p value); [subst; contradiction | reflexivity].
Qed.

Lemma find_filter {T} (p q : T -> bool) (l : list T) :
  (forall x, p x = true -> q x = true) -> find p (filter q l) = find p l.
Proof.
  intros H. induction l as [|x l IH]; simpl; [reflexivity|].
  destruct (q x) eqn:Eq; simpl.
  - rewrite IH. reflexivity.
  - destruct (p x) eqn:Ep; [|exact IH].
    rewrite (H x Ep) in Eq. discriminate.
Qed.

Lemma find_app_found {T} (p : T -> bool) (l m : list T) (x : T) :
  find p l = Some x -> find p (l ++ m) = Some x.
Proof.
  induction l as [|y l IH]; simpl; [discriminate|].
  destruct (p y); [trivial | exact IH].
Qed.

Lemma SandboxView_detail (s : Store) (env : Env.t) :
  SandboxView s = DetailView env <->
  exists id, selectedEnvironmentId s = Some id /\ id <> "" /\
             find (fun e => String.eqb (Env.id e) id) (environments s) = Some env.
Proof.
  unfold SandboxView, currentEnvironment, id_is_selected, truthy.
  destruct (selectedEnvironmentId s) as [id|].
  - destruct (find (fun e => String.eqb (Env.id e) id) (environments s)) as [e|] eqn:Ef.
    + destruct (String.eqb_spec id "") as [Hempty|Hfull]; simpl; split.
      * discriminate.
      * intros (i & Hi & Hne & _). injection Hi as <-. contradiction.
      * intros H. injection H as <-. exists id. repeat split; assumption.
      * intros (i & Hi & _ & He). injection Hi as <-. congruence.
    + split; [discriminate|].
      intros (i & Hi & _ & He). injection Hi as <-. congruence.
  - split; [discriminate | intros (i & H & _); discriminate].
Qed.

(** X18. While the detail view shows an environment: deleting another
    environment leaves it showing the same record; deleting the shown
    one, or going back, returns to the list; updating with a record of
    the same id shows that record; adding an environment, even one
    with the same id, does not change what is shown. *)
Theorem detail_view_follows_the_store (s : Store) (env : Env.t) :
  SandboxView s = DetailView env ->
  (forall id, id <> Env.id env -> SandboxView (deleteEnvironment id s) = DetailView env) /\
  SandboxView (deleteEnvironment (Env.id env) s) = ListView /\
  SandboxView (handleBackToEnvironments s) = ListView /\
  (forall updatedEnv, Env.id updatedEnv = Env.id env ->
     SandboxView (updateEnvironment updatedEnv s) = DetailView updatedEnv) /\
  (forall added, SandboxView (addEnvironment added s) = DetailView env).
Proof.
  intros Hview. apply SandboxView_detail in Hview.
  destruct Hview as (id0 & Hsel & Hne & Hfind).
  assert (Hid : Env.id env = id0).
  { apply find_some in Hfind. apply String.eqb_eq. tauto. }
  split; [|split; [|split; [|split]]].
  - intros id Hother. apply SandboxView_detail. exists id0.
    rewrite deleteEnvironment_selected, deleteEnvironment_environments, Hsel. simpl.
    destruct (String.eqb_spec id0 id) as [E|_]; [congruence|].
    split; [reflexivity|]. split; [exact Hne|].
    rewrite find_filter; [exact Hfind|].
    intros x Hx. apply String.eqb_eq in Hx. apply negb_true_iff.
    destruct (String.eqb_spec (Env.id x) id); [congruence | reflexivity].
  - unfold SandboxView. rewrite deleteEnvironment_selected, Hsel. simpl.
    rewrite <- Hid, String.eqb_refl. reflexivity.
  - reflexivity.
  - intros updatedEnv Hsame. apply SandboxView_detail. exists id0.
    split; [exact Hsel|]. split; [exact Hne|]. simpl.
    replace id0 with (Env.id updatedEnv) by congruence.
    apply (replace_find Env.id updatedEnv). exists env. split; [|congruence].
    apply find_some in Hfind. tauto.
  - intros added. apply SandboxView_detail. exists id0.
    split; [exact Hsel|]. split; [exact Hne|]. simpl.
    apply find_app_found. exact Hfind.
Qed.

Lemma detail_view_follows_the_store_witness :
  SandboxView sampleStore = DetailView sampleEnv /\
  SandboxView (deleteEnvironment "env-2" sampleStore) = DetailView sampleEnv.
Proof.
  assert (H : SandboxView sampleStore = DetailView sampleEnv) by reflexivity.
  split; [exact H|].
  apply (proj1 (@detail_view_follows_the_store sampleStore sampleEnv H)).
  discriminate.
Defined.

Section KeySelector.

Variable JSON_stringify : Json -> nat -> string.
Variable toString36 : Q -> string.

Lemma usable_key_never_401 (catalog : list Endpoint.t) (apiKeys : list Key.t)
    (method : Endpoint.Method) (path selectedAPIKeyId : string)
    (st : TesterState) (w : World) (usedKey : Key.t) :
  selectedAPIKeyId <> "" ->
  find (fun k => String.eqb (Key.id k) selectedAPIKeyId) apiKeys = Some usedKey ->
  key_active usedKey = true ->
  statusCode (fst (handleSendRequestOn JSON_stringify toString36 catalog apiKeys method
                     path selectedAPIKeyId st w)) <> Some 401.
Proof.
  intros Hsel Hk Hactive. apply truthy_nonempty in Hsel.
  simulate.
  destruct (find (fun ep => String.eqb (Endpoint.path ep) path) catalog) as [ep|];
    [|refused; discriminate].
  destruct (Endpoint.method_eqb method (Endpoint.method ep)); simpl;
    [|refused; discriminate].
  rewrite Hsel.
  destruct (Endpoint.isAuthenticated ep); simpl.
  - rewrite Hk, Hactive. simpl.
    destruct (forbidden method usedKey); [refused; discriminate|].
    match goal with
    | |- context [succeed _ _ _ _ ?s ?x] =>
        destruct (succeed_status JSON_stringify toString36 method path s x)
          as (Hc & Hs & He);
        destruct (succeed JSON_stringify toString36 method path s x) as [[c st'] w']
    end.
    simpl in *. subst c. simpl. rewrite Hs. destruct method; discriminate.
  - match goal with
    | |- context [succeed _ _ _ _ ?s ?x] =>
        destruct (succeed_status JSON_stringify toString36 method path s x)
          as (Hc & Hs & He);
        destruct (succeed JSON_stringify toString36 method path s x) as [[c st'] w']
    end.
    simpl in *. subst c. simpl. rewrite Hs. destruct method; discriminate.
Qed.

(** X19. When no key is selected and the effect of the tester picks
    one, it picks the first Active key of the selected environment.
    With key ids that are unique in the store, a request made with the
    key it picked is never answered 401, on any path and method. *)
Theorem auto_selected_key_is_usable (catalog : list Endpoint.t) (apiKeys : list Key.t)
    (selectedEnvironmentId : option string) (method : Endpoint.Method) (path : string)
    (st : TesterState) (w : World) :
  NoDup (map Key.id apiKeys) ->
  let selectedAPIKeyId :=
    selectKeyEffect (availableKeys apiKeys selectedEnvironmentId) "" in
  selectedAPIKeyId <> "" ->
  (exists k rest,
     availableKeys apiKeys selectedEnvironmentId = k :: rest /\
     In k apiKeys /\ Key.id k = selectedAPIKeyId /\ Key.status k = Key.Active /\
     selectedEnvironmentId = Some (Key.environmentId k)) /\
  statusCode (fst (handleSendRequestOn JSON_stringify toString36 catalog apiKeys method
                     path selectedAPIKeyId st w)) <> Some 401.
Proof.
  intros Hnd sel Hsel. subst sel.
  destruct (availableKeys apiKeys selectedEnvironmentId) as [|k rest] eqn:Eavail;
    [contradiction Hsel; reflexivity|].
  simpl in *.
  assert (Hin : In k (availableKeys apiKeys selectedEnvironmentId))
    by (rewrite Eavail; simpl; auto).
  unfold availableKeys in Hin. apply filter_In in Hin. destruct Hin as [Hin Hp].
  apply andb_true_iff in Hp. destruct Hp as [Henv Hactive].
  split.
  - exists k, rest. split; [reflexivity|]. split; [exact Hin|]. split; [reflexivity|].
    split; [apply key_active_iff; exact Hactive|].
    destruct selectedEnvironmentId as [id|]; [|discriminate].
    apply String.eqb_eq in Henv. congruence.
  - apply usable_key_never_401 with (usedKey := k); [exact Hsel | | exact Hactive].
    apply (find_unique Key.id); assumption.
Qed.

End KeySelector.

Lemma auto_selected_key_is_usable_witness :
  NoDup (map Key.id (apiKeys sampleStore)) /\
  selectKeyEffect (availableKeys (apiKeys sampleStore) (Some "env-1")) "" = "key-admin" /\
  statusCode
    (fst (handleSendRequest sample_stringify sample_toString36 (apiKeys sampleStore)
            Endpoint.POST "/users"
            (selectKeyEffect (availableKeys (apiKeys sampleStore) (Some "env-1")) "")
            idleTester sample_world)) <> Some 401.
Proof.
  assert (Hnd : NoDup (map Key.id (apiKeys sampleStore))).
  { simpl. repeat constructor; simpl; intuition discriminate. }
  assert (Hsel : selectKeyEffect (availableKeys (apiKeys sampleStore) (Some "env-1")) ""
                 <> "") by (vm_compute; discriminate).
  split; [exact Hnd|]. split; [reflexivity|].
  exact (proj2 (@auto_selected_key_is_usable sample_stringify sample_toString36
                  MOCK_API_ENDPOINTS (apiKeys sampleStore) (Some "env-1") Endpoint.POST
                  "/users" idleTester sample_world Hnd Hsel)).
Defined.

(** * The mock metrics *)

Lemma toFixed2_nonneg (x : Q) : (0 <= x)%Q -> (0 <= toFixed2 x)%Q.
Proof.
  intros Hx. unfold toFixed2.
  apply Qle_shift_div_l; [reflexivity|]. rewrite Qmult_0_l.
  apply inject_Z_nonneg.
  change 0 with (Qfloor 0). apply Qfloor_resp_le. lra.
Qed.

Lemma toFixed2_signed_nonneg (x : Q) :
  (0 <= x)%Q -> toFixed2_signed x = toFixed2 x.
Proof.
  intros Hx. unfold toFixed2_signed.
  rewrite (proj2 (Qle_bool_iff 0 x) Hx). reflexivity.
Qed.

(** *** Rounding to a double *)

Arguments double : simpl never.

Lemma pow2_pos (e : Z) : (0 < pow2 e)%Q.
Proof. destruct e; reflexivity. Qed.

Lemma round_half_even_nonneg (q : Q) : (0 <= q)%Q -> 0 <= round_half_even q.
Proof.
  intros Hq. unfold round_half_even.
  assert (H : 0 <= Qfloor q).
  { change 0 with (Qfloor 0). apply Qfloor_resp_le. exact Hq. }
  cbv zeta. destruct (Qcompare _ _); [destruct (Z.even _)| |]; lia.
Qed.

Lemma double_nonneg (q : Q) : (0 <= q)%Q -> (0 <= double q)%Q.
Proof.
  intros Hq. unfold double. destruct q as [[|p|p] d]; cbn [Qnum].
  - apply Qle_refl.
  - unfold double_pos. cbv zeta.
    apply Qmult_le_0_compat; [|apply Qlt_le_weak, pow2_pos].
    apply inject_Z_nonneg, round_half_even_nonneg.
    apply Qle_shift_div_l; [apply pow2_pos|].
    rewrite Qmult_0_l. exact Hq.
  - exfalso. unfold Qle in Hq. simpl in Hq. lia.
Qed.

(** A number of hundredths up to ten stays up to ten when it is read
    back as a double, and up to five when it is up to five. *)
Lemma double_cents (m : nat) :
  (m <= 1000)%nat ->
  (double (inject_Z (Z.of_nat m) / 100) <= 10)%Q /\
  ((m <= 500)%nat -> (double (inject_Z (Z.of_nat m) / 100) <= 5)%Q).
Proof.
  assert (H : forallb
                (fun m => Qle_bool (double (inject_Z (Z.of_nat m) / 100)) 10
                          && (negb (m <=? 500)%nat
                              || Qle_bool (double (inject_Z (Z.of_nat m) / 100)) 5))
                (seq 0 1001) = true) by (vm_compute; reflexivity).
  rewrite forallb_forall in H. intros Hm.
  specialize (H m). rewrite in_seq in H.
  assert (Hin : (0 <= m < 0 + 1001)%nat) by lia.
  apply H in Hin. apply andb_true_iff in Hin. destruct Hin as [H10 H5].
  split; [apply Qle_bool_iff; exact H10|].
  intros Hm5. apply Nat.leb_le in Hm5. rewrite Hm5 in H5.
  apply Qle_bool_iff. exact H5.
Qed.

Lemma toFixed2_cents (x : Q) (n : Z) :
  (0 <= x)%Q -> (x <= inject_Z n)%Q ->
  exists m, toFixed2 x = (inject_Z (Z.of_nat m) / 100)%Q /\ Z.of_nat m <= n * 100.
Proof.
  intros H0 Hn. exists (Z.to_nat (Qfloor (x * 100 + (1 # 2)))).
  assert (Hlo : 0 <= Qfloor (x * 100 + (1 # 2))).
  { change 0 with (Qfloor 0). apply Qfloor_resp_le. lra. }
  assert (Hhi : Qfloor (x * 100 + (1 # 2)) <= n * 100).
  { rewrite <- (Qfloor_unique (x := inject_Z n * 100 + (1 # 2)) (k := n * 100)).
    - apply Qfloor_resp_le. lra.
    - rewrite inject_Z_mult. change (inject_Z 100) with 100%Q. lra.
    - rewrite inject_Z_plus, inject_Z_mult.
      change (inject_Z 100) with 100%Q. change (inject_Z 1) with 1%Q. lra. }
  rewrite Z2Nat.id by exact Hlo. split; [reflexivity|exact Hhi].
Qed.

(** *** The series *)

(** The bounds the loop of [generateMockMetrics] keeps, by metric. *)
Local Abbreviation within :=
  (fun (metricType : MetricType) (v : Q) =>
     match metricType with
     | api_errors => (0 <= v)%Q /\ (v <= 10)%Q
     | webhook_failures => (0 <= v)%Q /\ (v <= 5)%Q
     | api_latency => (0 <= v)%Q
     | api_calls => True
     end).

Lemma nextValue_within (metricType : MetricType) (baseValue r : Q) :
  within metricType (nextValue metricType baseValue r).
Proof.
  unfold nextValue. destruct metricType; simpl.
  - exact I.
  - split; [apply Q.min_glb; [apply Q.le_max_l | discriminate] | apply Q.le_min_r].
  - apply Q.le_max_l.
  - split; [apply Q.min_glb; [apply Q.le_max_l | discriminate] | apply Q.le_min_r].
Qed.

Lemma rounded_within (metricType : MetricType) (v : Q) :
  within metricType v -> within metricType (double (toFixed2_signed v)).
Proof.
  destruct metricType; simpl.
  - trivial.
  - intros [H0 H1]. rewrite toFixed2_signed_nonneg by exact H0.
    split; [apply double_nonneg, toFixed2_nonneg; exact H0|].
    destruct (@toFixed2_cents v 10 H0 H1) as (m & -> & Hm).
    apply double_cents. lia.
  - intros H0. rewrite toFixed2_signed_nonneg by exact H0.
    apply double_nonneg, toFixed2_nonneg; exact H0.
  - intros [H0 H1]. rewrite toFixed2_signed_nonneg by exact H0.
    split; [apply double_nonneg, toFixed2_nonneg; exact H0|].
    destruct (@toFixed2_cents v 5 H0 H1) as (m & -> & Hm).
    apply double_cents; lia.
Qed.

Lemma counterValues_more (fuel : nat) :
  forall (i : Q) (l : list Q) (fuel' : nat),
    counterValues fuel i = Some l -> (fuel <= fuel')%nat ->
    counterValues fuel' i = Some l.
Proof.
  induction fuel as [|n IH]; intros i l fuel' H Hle.
  - destruct fuel'; simpl in *; destruct (Qle_bool 0 i); congruence.
  - destruct fuel' as [|n']; [lia|].
    simpl in *. destruct (Qle_bool 0 i); [|exact H].
    destruct (counterValues n (double (i - 1))) as [rest|] eqn:E; [|discriminate].
    rewrite (IH _ _ n' E) by lia. exact H.
Qed.

(** The loop ends exactly when its counter runs out within the fuel;
    it then returns one point per value of the counter, each within the
    bounds of its metric. *)
Lemma generateMockMetrics_loop_spec (metricType : MetricType) (fuel : nat) :
  forall (i baseValue : Q) (w : World),
    match counterValues fuel i with
    | Some l =>
        exists series,
          fst (generateMockMetrics_loop metricType fuel i baseValue w) = Some series /\
          List.length series = List.length l /\
          Forall (fun m => within metricType (metric_value m)) series
    | None => fst (generateMockMetrics_loop metricType fuel i baseValue w) = None
    end.
Proof.
  induction fuel as [|n IH]; intros i baseValue w.
  - simpl. destruct (Qle_bool 0 i); [reflexivity|].
    exists []. repeat split. constructor.
  - simpl. destruct (Qle_bool 0 i);
      [|exists []; repeat split; constructor].
    unfold bind, Date_now, Math_random, ret. simpl.
    match goal with
    | |- context [generateMockMetrics_loop _ _ ?j ?b ?x] =>
        specialize (IH j b x);
        destruct (generateMockMetrics_loop metricType n j b x) as [rest w']
    end.
    destruct (counterValues n (double (i - 1))) as [l|]; simpl in *.
    + destruct IH as (series & -> & Hlen & Hall). simpl.
      eexists. split; [reflexivity|]. split; [simpl; congruence|].
      constructor; [|exact Hall].
      simpl. apply rounded_within, nextValue_within.
    + rewrite IH. reflexivity.
Qed.

(** X20. Whatever the random numbers and the clock are, for every time
    frame of the metrics panel, known or not, the loop of
    [generateMockMetrics] ends (721 turns are enough) and returns one
    point per hour of the time frame and one more: 2 points for '1h'
    (the double nearest to 1/24, times 24, rounds to 1), 25 for '24h',
    169 for '7d', 721 for '30d', and 25 for any other name.  The
    values keep the clamps of the loop: error rates lie between 0 and
    10, webhook failures between 0 and 5, latencies are not negative
    (API calls are not clamped). *)
Theorem generateMockMetrics_bounds (metricType : MetricType) (tf : string)
    (fuel : nat) (w : World) :
  (721 <= fuel)%nat ->
  exists series,
    fst (generateMockMetrics fuel metricType (getDaysForTimeframe tf) w) = Some series /\
    List.length series =
      (if String.eqb tf "1h" then 2
       else if String.eqb tf "24h" then 25
       else if String.eqb tf "7d" then 169
       else if String.eqb tf "30d" then 721
       else 25)%nat /\
    Forall (fun m =>
              match metricType with
              | api_errors => (0 <= metric_value m)%Q /\ (metric_value m <= 10)%Q
              | webhook_failures => (0 <= metric_value m)%Q /\ (metric_value m <= 5)%Q
              | api_latency => (0 <= metric_value m)%Q
              | api_calls => True
              end) series.
Proof.
  intros Hfuel. unfold generateMockMetrics.
  assert (Hc : option_map (@List.length Q)
                 (counterValues 721 (double (getDaysForTimeframe tf * 24)))
               = Some (if String.eqb tf "1h" then 2
                       else if String.eqb tf "24h" then 25
                       else if String.eqb tf "7d" then 169
                       else if String.eqb tf "30d" then 721
                       else 25)%nat).
  { unfold getDaysForTimeframe.
    destruct (String.eqb tf "1h"); [vm_compute; reflexivity|].
    destruct (String.eqb tf "24h"); [vm_compute; reflexivity|].
    destruct (String.eqb tf "7d"); [vm_compute; reflexivity|].
    destruct (String.eqb tf "30d"); vm_compute; reflexivity. }
  destruct (counterValues 721 (double (getDaysForTimeframe tf * 24))) as [l|] eqn:E;
    [|discriminate].
  simpl in Hc. injection Hc as Hlen.
  pose proof (generateMockMetrics_loop_spec metricType fuel
                (double (getDaysForTimeframe tf * 24)) (initialBase metricType) w) as H.
  rewrite (counterValues_more _ E Hfuel) in H.
  destruct H as (series & Hrun & Hl & Hall).
  exists series. split; [exact Hrun|]. split; [congruence|exact Hall].
Qed.

Lemma generateMockMetrics_bounds_witness :
  (721 <= 721)%nat /\
  exists series,
    fst (generateMockMetrics 721 api_errors (getDaysForTimeframe "1h") varied_world)
    = Some series /\
    List.length series = 2%nat /\
    Forall (fun m => (0 <= metric_value m)%Q /\ (metric_value m <= 10)%Q) series.
Proof.
  split; [apply le_n|].
  exact (@generateMockMetrics_bounds api_errors "1h" 721 varied_world (le_n 721)).
Defined.

(** * The first render *)

Section FirstRender.

Variable toString36 : Q -> string.

Lemma generateMockLog_keeps_tape (envId : string) (w : World) :
  random_tape (snd (generateMockLog toString36 envId w)) = random_tape w.
Proof.
  unfold generateMockLog, bind, getRandomItem, getRandomInt, generateUUID, bind,
    Math_random, Date_now, ret.
  simpl.
  repeat match goal with
  | |- context [if ?b then _ else _] => destruct b; simpl
  | |- context [match ?o with Some _ => _ | None => _ end] => destruct o; simpl
  end;
  reflexivity.
Qed.

Lemma generateMockLogs_keeps_tape (envId : string) (count : Z) (w : World) :
  random_tape (snd (generateMockLogs toString36 envId count w)) = random_tape w.
Proof.
  unfold generateMockLogs, bind.
  assert (H : forall n w0,
            random_tape (snd (generateMockLogs_loop toString36 envId n w0))
            = random_tape w0).
  { induction n as [|n IH]; intros w0; simpl; [reflexivity|].
    unfold bind. pose proof (generateMockLog_keeps_tape envId w0) as H0.
    destruct (generateMockLog toString36 envId w0) as [entry w1].
    specialize (IH w1).
    destruct (generateMockLogs_loop toString36 envId n w1) as [rest w2].
    simpl in *. congruence. }
  specialize (H (Z.to_nat count) w).
  destruct (generateMockLogs_loop toString36 envId (Z.to_nat count) w) as [l w1].
  exact H.
Qed.

Lemma fair_same_tape (w w' : World) : random_tape w' = random_tape w -> fair w -> fair w'.
Proof. intros E H i. rewrite E. apply H. Qed.

Lemma initialLogs_counts (envs : list Env.t) (w : World) (env : Env.t) :
  fair w -> NoDup (map Env.id envs) -> In env envs ->
  (50 <= List.length (filter (fun log => String.eqb (Log.environmentId log) (Env.id env))
                        (fst (initialLogs toString36 envs w))) <= 150)%nat.
Proof.
  revert w. induction envs as [|e rest IH]; intros w Hfair Hnd Hin; [contradiction|].
  inversion Hnd as [|x l Hnotin Hrest]; subst.
  simpl. unfold bind.
  pose proof (@randomInt_of_range 50 150 (random_tape w (random_pos w)) ltac:(lia)
                (proj1 (Hfair _)) (proj2 (Hfair _))) as Hcount.
  unfold getRandomInt at 1, bind, Math_random, ret. simpl.
  match goal with
  | |- context [generateMockLogs _ _ ?c ?x] =>
      pose proof (generateMockLogs_environmentId toString36 (Env.id e) c x) as Hb;
      pose proof (generateMockLogs_length toString36 (Env.id e) c x) as Hlen;
      pose proof (generateMockLogs_keeps_tape (Env.id e) c x) as Htape;
      destruct (generateMockLogs toString36 (Env.id e) c x) as [batch w2]
  end.
  simpl in Hb, Hlen, Htape.
  assert (Hfair2 : fair w2) by (apply (@fair_same_tape w w2 Htape); exact Hfair).
  specialize (IH w2 Hfair2 Hrest).
  pose proof (initialLogs_ids toString36 rest w2) as Hids.
  destruct (initialLogs toString36 rest w2) as [more w3].
  simpl in *. rewrite filter_app, length_app.
  destruct Hin as [->|Hin].
  - rewrite filter_field_eq_all by exact Hb.
    rewrite (filter_field_eq_absent Log.environmentId).
    + simpl. lia.
    + intros log Hlog E. rewrite Forall_forall in Hids.
      specialize (Hids log Hlog). rewrite E in Hids. contradiction.
  - rewrite (filter_field_eq_none Log.environmentId) with (id := Env.id e).
    + simpl. apply IH. exact Hin.
    + intros E. apply Hnotin. rewrite <- E. apply in_map. exact Hin.
    + exact Hb.
Qed.

(** X21. The first render in a fair world: the store holds the seven
    mock environments with nothing selected, so the list view is shown
    and the header counts four Active environments; every mock
    environment has between 50 and 150 log entries; and every log entry
    names one of the mock environments. *)
Theorem first_render (keys : list Key.t) (hooks : list Hook.t) (w : World) :
  fair w ->
  let s := fst (initialStore toString36 keys hooks w) in
  environments s = MOCK_ENVIRONMENTS /\
  SandboxView s = ListView /\
  activeEnvironments s = 4%nat /\
  (forall env, In env MOCK_ENVIRONMENTS ->
     (50 <= List.length (envLogs (Env.id env) s) <= 150)%nat) /\
  (forall log, In log (logs s) -> envExists s (Log.environmentId log) = true).
Proof.
  intros Hfair s. subst s. unfold initialStore, bind.
  pose proof (fun env => @initialLogs_counts MOCK_ENVIRONMENTS w env Hfair
                           NoDup_MOCK_ENVIRONMENTS) as Hcounts.
  pose proof (initialLogs_ids toString36 MOCK_ENVIRONMENTS w) as Hids.
  destruct (initialLogs toString36 MOCK_ENVIRONMENTS w) as [allLogs w1].
  cbn [fst snd ret environments logs] in *.
  split; [reflexivity|]. split; [reflexivity|]. split; [reflexivity|]. split.
  - intros env Hin. apply Hcounts. exact Hin.
  - intros log Hlog. rewrite Forall_forall in Hids. specialize (Hids log Hlog).
    unfold envExists. cbn [environments]. apply existsb_exists.
    apply in_map_iff in Hids. destruct Hids as (env & Hid & Hin).
    exists env. split; [exact Hin|]. rewrite Hid. apply String.eqb_refl.
Qed.

End FirstRender.

Lemma first_render_witness :
  fair sample_world /\ SandboxView firstRender = ListView.
Proof.
  split; [exact fair_sample_world|].
  exact (proj1 (proj2 (@first_render sample_toString36 [adminKey]
                         [hook_of "hook-1" "env-1"] sample_world fair_sample_world))).
Defined.

(** * Answers, new log entries and the remaining handlers *)

Lemma mapSim_length {A B} (f : A -> Sim B) (l : list A) (w : World) :
  List.length (fst (mapSim f l w)) = List.length l.
Proof.
  revert w. induction l as [|a l IH]; intros w; simpl; [reflexivity|].
  unfold bind. destruct (f a w) as [b w1]. specialize (IH w1).
  destruct (mapSim f l w1) as [bs w2]. simpl in *. congruence.
Qed.

Section Answers.

Variable JSON_stringify : Json -> nat -> string.
Variable toString36 : Q -> string.

(** X22. The answer to a GET that is let through, here on an endpoint
    without authentication: for a path with the [{id}] placeholder the
    body is the fixed mock item; for any other path it is a list of
    between 3 and 10 generated items (in a fair world).  The status is
    200 in both cases. *)
Theorem get_answers (catalog : list Endpoint.t) (apiKeys : list Key.t)
    (path selectedAPIKeyId : string) (st : TesterState) (w : World)
    (mockEndpoint : Endpoint.t) :
  fair w ->
  find (fun ep => String.eqb (Endpoint.path ep) path) catalog = Some mockEndpoint ->
  Endpoint.method mockEndpoint = Endpoint.GET ->
  Endpoint.isAuthenticated mockEndpoint = false ->
  let out := fst (handleSendRequestOn JSON_stringify toString36 catalog apiKeys
                    Endpoint.GET path selectedAPIKeyId st w) in
  statusCode out = Some 200 /\
  (includes path "{id}" = true ->
     response out
     = JSON_stringify
         (JObj [("id", JStr "some-id-123"); ("name", JStr "Mock Item");
                ("status", JStr "active"); ("data", JStr "example")]) 2) /\
  (includes path "{id}" = false ->
     exists items,
       response out = JSON_stringify (JObj [("items", JArr items)]) 2 /\
       (3 <= List.length items <= 10)%nat).
Proof.
  intros Hfair Hfind Hm Hauth out. subst out.
  simulate. rewrite Hfind, Hm, Hauth. simpl.
  unfold succeed, bind.
  destruct (includes path "{id}").
  - simpl. split; [reflexivity|]. split; [reflexivity | discriminate].
  - unfold getRandomInt, bind, Math_random, ret. simpl.
    pose proof (@randomInt_of_range 3 10 (random_tape w (S (random_pos w))) ltac:(lia)
                  (proj1 (Hfair _)) (proj2 (Hfair _))) as Hn.
    match goal with
    | |- context [mapSim mockItem ?l ?x] =>
        pose proof (mapSim_length mockItem l x) as Hlen;
        destruct (mapSim mockItem l x) as [items w']
    end.
    simpl in *. rewrite length_seq in Hlen.
    split; [reflexivity|]. split; [discriminate|].
    intros _. exists items. split; [reflexivity | lia].
Qed.

End Answers.

Lemma get_answers_witness :
  fair sample_world /\
  statusCode
    (fst (handleSendRequest sample_stringify sample_toString36 [] Endpoint.GET "/products"
            "" idleTester sample_world)) = Some 200.
Proof.
  split; [exact fair_sample_world|].
  eapply (@get_answers sample_stringify sample_toString36 MOCK_API_ENDPOINTS []
            "/products" "" idleTester sample_world _ fair_sample_world).
  - reflexivity.
  - reflexivity.
  - reflexivity.
Defined.

Section NewEntries.

Variable JSON_stringify : Json -> nat -> string.
Variable toLowerCase : string -> string.

(** X23. An entry passed to [addLog] is the first row the viewer shows
    for its environment under the starting filters, whatever its time
    stamp and for any display count above zero; the rows of every other
    environment are as before, under any filters. *)
Theorem added_log_is_shown_first (log : Log.t) (s : Store) (displayCount : Z) :
  0 < displayCount ->
  filteredLogs JSON_stringify toLowerCase (logs (addLog log s)) (Log.environmentId log)
    "ALL" "ALL" "" displayCount
  = log :: firstn (Z.to_nat displayCount - 1) (envLogs (Log.environmentId log) s) /\
  (forall other filterLevel filterSource searchTerm,
     other <> Log.environmentId log ->
     filteredLogs JSON_stringify toLowerCase (logs (addLog log s)) other filterLevel
       filterSource searchTerm displayCount
     = filteredLogs JSON_stringify toLowerCase (logs s) other filterLevel filterSource
         searchTerm displayCount).
Proof.
  intros Hn. split.
  - unfold filteredLogs, slice0, envLogs.
    destruct (Z.ltb_spec displayCount 0); [lia|].
    rewrite filter_all by (intros; reflexivity).
    cbn [logs addLog setLogs filter]. rewrite String.eqb_refl.
    destruct (Z.to_nat displayCount) as [|n] eqn:E; [lia|].
    simpl. rewrite Nat.sub_0_r. reflexivity.
  - intros other filterLevel filterSource searchTerm Hne.
    unfold filteredLogs. cbn [logs addLog setLogs filter].
    destruct (String.eqb_spec (Log.environmentId log) other); [congruence|].
    reflexivity.
Qed.

End NewEntries.

Lemma added_log_is_shown_first_witness :
  0 < 50 /\
  hd_error
    (filteredLogs sample_stringify sample_toLowerCase
       (logs (addLog (log_of "log-a" "env-1" 100) sampleStore)) "env-1" "ALL" "ALL" "" 50)
  = Some (log_of "log-a" "env-1" 100).
Proof.
  split; [lia|].
  exact (f_equal (@hd_error Log.t)
           (proj1 (@added_log_is_shown_first sample_stringify sample_toLowerCase
                     (log_of "log-a" "env-1" 100) sampleStore 50 ltac:(lia)))).
Defined.

Section PanelHandlers.

Variable toString36 : Q -> string.
Variable toISOString : Z -> string.

(** X24. Saving the webhook form.  When no webhook is being edited the
    record is added to the environment of the panel, never triggered,
    with the name, URL, events and status of the form, and is read
    back at the end of the webhooks of that environment.  When one is
    being edited nothing is ever added: the ids are as before, in
    order, and if no webhook of the store has the id of the record the
    store does not change. *)
Theorem saved_webhook (environmentId : string) (webhook : Hook.t) (s : Store)
    (w0 : World) :
  let added := fst (handleSaveWebhook toString36 toISOString environmentId false webhook
                      s w0) in
  let edited := fst (handleSaveWebhook toString36 toISOString environmentId true webhook
                       s w0) in
  (exists h,
     webhooks added = (webhooks s ++ [h])%list /\
     Hook.environmentId h = environmentId /\
     Hook.lastTriggered h = "Never" /\
     Hook.name h = Hook.name webhook /\ Hook.url h = Hook.url webhook /\
     Hook.events h = Hook.events webhook /\ Hook.status h = Hook.status webhook /\
     filteredWebhooks environmentId added
     = (filteredWebhooks environmentId s ++ [h])%list) /\
  map Hook.id (webhooks edited) = map Hook.id (webhooks s) /\
  ((forall h, In h (webhooks s) -> Hook.id h <> Hook.id webhook) -> edited = s).
Proof.
  intros added edited. split; [|split].
  - eexists. split; [reflexivity|].
    cbv beta iota delta [Hook.environmentId Hook.lastTriggered Hook.name Hook.url
                         Hook.events Hook.status].
    repeat (split; [reflexivity|]).
    unfold filteredWebhooks. subst added. cbn [handleSaveWebhook].
    unfold bind, generateUUID, bind, Math_random, Date_now, ret.
    cbn [fst snd webhooks addWebhook setWebhooks].
    rewrite filter_app. cbn [filter Hook.environmentId].
    rewrite String.eqb_refl. reflexivity.
  - apply (replace_keeps_ids Hook.id).
  - intros Habsent. subst edited. cbn [handleSaveWebhook ret fst].
    apply store_eq; try reflexivity.
    apply (replace_absent Hook.id). exact Habsent.
Qed.

(** X25. The two buttons of the detail panel, while the view shows an
    environment.  [handleUpdateStatus] leaves the view on a record with
    the same id, name, counters and configuration, the new status and
    the time of the click as last activity; the ids of the
    environments, the keys, the webhooks and the logs are untouched.
    [handleDelete] returns to the list, and then no environment, key,
    webhook or log entry of the store carries the id. *)
Theorem detail_panel_buttons (s : Store) (env : Env.t) (newStatus : Env.Status)
    (w0 : World) :
  SandboxView s = DetailView env ->
  let updated := fst (handleUpdateStatus toISOString env newStatus s w0) in
  let deleted := handleDelete env s in
  (exists env',
     SandboxView updated = DetailView env' /\
     Env.id env' = Env.id env /\ Env.name env' = Env.name env /\
     Env.status env' = newStatus /\
     Env.lastActivity env' = toISOString (date_tape w0 (date_pos w0)) /\
     Env.apiKeyCount env' = Env.apiKeyCount env /\
     Env.webhookCount env' = Env.webhookCount env /\
     Env.config env' = Env.config env) /\
  map Env.id (environments updated) = map Env.id (environments s) /\
  apiKeys updated = apiKeys s /\ webhooks updated = webhooks s /\ logs updated = logs s /\
  SandboxView deleted = ListView /\
  envExists deleted (Env.id env) = false /\
  filteredApiKeys (Env.id env) deleted = [] /\
  filteredWebhooks (Env.id env) deleted = [] /\
  envLogs (Env.id env) deleted = [].
Proof.
  intros Hview updated deleted.
  apply SandboxView_detail in Hview. destruct Hview as (id0 & Hsel & Hne & Hfind).
  assert (Hin : In env (environments s)) by (apply find_some in Hfind; tauto).
  assert (Hid : Env.id env = id0).
  { apply find_some in Hfind. apply String.eqb_eq. tauto. }
  set (env' := Env.mk (Env.id env) (Env.name env) (Env.description env) newStatus
                 (Env.apiKeyCount env) (Env.webhookCount env) (Env.createdAt env)
                 (toISOString (date_tape w0 (date_pos w0))) (Env.ownerId env)
                 (Env.region env) (Env.config env)).
  assert (Hupdated : updated = updateEnvironment env' s) by reflexivity.
  split; [|split; [|split; [|split; [|split; [|split; [|split; [|split; [|split]]]]]]]].
  - exists env'. split; [|repeat split].
    apply SandboxView_detail. exists id0. rewrite Hupdated.
    split; [exact Hsel|]. split; [exact Hne|].
    cbn [environments updateEnvironment setEnvironments].
    replace id0 with (Env.id env') by exact Hid.
    apply (replace_find Env.id env'). exists env. split; [exact Hin | reflexivity].
  - rewrite Hupdated. apply (replace_keeps_ids Env.id).
  - rewrite Hupdated. reflexivity.
  - rewrite Hupdated. reflexivity.
  - rewrite Hupdated. reflexivity.
  - reflexivity.
  - subst deleted. unfold handleDelete, handleBackToEnvironments, envExists.
    cbn [environments setSelectedEnvironmentId].
    rewrite deleteEnvironment_environments.
    apply not_true_is_false. intros H. apply existsb_exists in H.
    destruct H as (e & He & Heq). apply In_filter_field_neq in He.
    apply String.eqb_eq in Heq. tauto.
  - subst deleted. unfold handleDelete, handleBackToEnvironments, filteredApiKeys.
    cbn [apiKeys setSelectedEnvironmentId].
    rewrite deleteEnvironment_apiKeys. apply filter_field_eq_after_neq_same.
  - subst deleted. unfold handleDelete, handleBackToEnvironments, filteredWebhooks.
    cbn [webhooks setSelectedEnvironmentId].
    rewrite deleteEnvironment_webhooks. apply filter_field_eq_after_neq_same.
  - subst deleted. unfold handleDelete, handleBackToEnvironments, envLogs.
    cbn [logs setSelectedEnvironmentId].
    rewrite deleteEnvironment_logs. apply filter_field_eq_after_neq_same.
Qed.

End PanelHandlers.

Lemma detail_panel_buttons_witness :
  SandboxView sampleStore = DetailView sampleEnv /\
  SandboxView (handleDelete sampleEnv sampleStore) = ListView.
Proof.
  assert (H : SandboxView sampleStore = DetailView sampleEnv) by reflexivity.
  split; [exact H|].
  pose proof (@detail_panel_buttons sample_toISOString sampleStore sampleEnv Env.Stopped
                sample_world H) as P.
  cbv zeta in P.
  exact (proj1 (proj2 (proj2 (proj2 (proj2 (proj2 P)))))).
Defined.
